(** * ip-intel: a shallow embedding of [src/index.ts]

    The agent exposes six priced entrypoints.  Each one validates an IP
    address with two regular expressions, asks ip-api.com for a record and
    reshapes the decoded JSON.  The development follows the source file top
    down:

    - [RegExp]: the pattern language the two literals of [isValidIP] use,
      with a backtracking matcher in continuation-passing style;
    - the JavaScript values the handlers read and build;
    - [Async]: the suspension points of an [async] function ([await fetch],
      [await response.json()]) and the clock, as a tree of effects;
    - the handlers, transcribed line by line;
    - the event loop that drives the callbacks of the bulk handler's
      [Promise.all] under an arbitrary completion order. *)

From Stdlib Require Import String Ascii List ZArith Lia Bool.
From Stdlib Require Import Floats.SpecFloat DecimalString.
From stdpp Require Import base list.
Import ListNotations.
Open Scope string_scope.

(* ===================================================================== *)
(** ** Regular expressions *)
(* ===================================================================== *)

Module RegExp.

(** The syntax the literals of [isValidIP] are written in: characters,
    bracket classes made of ranges, sequence, [|], the bounded quantifiers
    [{m,n}] (with [?] for [{0,1}] and [{n}] for [{n,n}]) and the assertions
    [^] and [$].  Groups are all non-capturing, so a group is its body. *)
Inductive regex : Type :=
| Empty
| Char (c : ascii)
| Class (ranges : list (ascii * ascii))
| Seq (r1 r2 : regex)
| Alt (r1 r2 : regex)
| Quant (r : regex) (min max : nat)
| Bol
| Eol.

(** A position in the subject string: how many characters lie before it,
    and the characters from it on. *)
Record state : Type := State { endIndex : nat; rest : string }.

Definition Continuation : Type := state -> bool.
Definition Matcher : Type := state -> Continuation -> bool.

Definition in_range (c : ascii) (rg : ascii * ascii) : bool :=
  (nat_of_ascii (fst rg) <=? nat_of_ascii c)%nat
  && (nat_of_ascii c <=? nat_of_ascii (snd rg))%nat.

Definition in_class (ranges : list (ascii * ascii)) (c : ascii) : bool :=
  existsb (in_range c) ranges.

(** One character, accepted by [p]. *)
Definition CharacterSetMatcher (p : ascii -> bool) : Matcher :=
  fun x c =>
    match rest x with
    | EmptyString => false
    | String ch s => if p ch then c (State (S (endIndex x)) s) else false
    end.

(** The quantifier, greedy: one more iteration is tried before the
    continuation.  An iteration that consumed nothing once [min] is
    reached fails, as in the language definition. *)
Fixpoint RepeatMatcher (m : Matcher) (min max : nat) (x : state)
    (c : Continuation) {struct max} : bool :=
  match max with
  | O => c x
  | S max2 =>
      let d : Continuation := fun y =>
        if (min =? 0)%nat && (endIndex y =? endIndex x)%nat then false
        else RepeatMatcher m (Nat.pred min) max2 y c in
      if (min =? 0)%nat then m x d || c x else m x d
  end.

Fixpoint CompileSubpattern (r : regex) : Matcher :=
  match r with
  | Empty => fun x c => c x
  | Char ch => CharacterSetMatcher (Ascii.eqb ch)
  | Class ranges => CharacterSetMatcher (in_class ranges)
  | Seq r1 r2 => fun x c => CompileSubpattern r1 x (fun y => CompileSubpattern r2 y c)
  | Alt r1 r2 => fun x c => CompileSubpattern r1 x c || CompileSubpattern r2 x c
  | Quant r1 min max => RepeatMatcher (CompileSubpattern r1) min max
  | Bol => fun x c => if (endIndex x =? 0)%nat then c x else false
  | Eol => fun x c => match rest x with EmptyString => c x | String _ _ => false end
  end.

(** [exec] of a pattern without the global or sticky flag: the match is
    tried at index 0, then at 1, and so on up to the end of the subject. *)
Fixpoint exec_from (r : regex) (lastIndex : nat) (s : string) : bool :=
  CompileSubpattern r (State lastIndex s) (fun _ => true)
  || match s with
     | EmptyString => false
     | String _ s' => exec_from r (S lastIndex) s'
     end.

Definition test (r : regex) (s : string) : bool := exec_from r 0 s.

(** A sequence of terms and a list of alternatives, as the parser reads
    [t1 t2 ... tn] and [a1|a2|...|an]. *)
Fixpoint Alternative (terms : list regex) : regex :=
  match terms with
  | [] => Empty
  | [t] => t
  | t :: ts => Seq t (Alternative ts)
  end.

Fixpoint Disjunction (alts : list regex) : regex :=
  match alts with
  | [] => Empty
  | [a] => a
  | a :: rest => Alt a (Disjunction rest)
  end.

(** *** The language of a pattern *)

(** [k] strings of [L], one after the other. *)
Fixpoint power (L : string -> Prop) (k : nat) (o : string) : Prop :=
  match k with
  | O => o = ""
  | S k' => exists o1 o2, o = o1 ++ o2 /\ L o1 /\ power L k' o2
  end.

(** The strings a pattern without assertions stands for. *)
Fixpoint lang (r : regex) (o : string) : Prop :=
  match r with
  | Empty => o = ""
  | Char ch => o = String ch ""
  | Class ranges => exists ch, o = String ch "" /\ in_class ranges ch = true
  | Seq r1 r2 => exists o1 o2, o = o1 ++ o2 /\ lang r1 o1 /\ lang r2 o2
  | Alt r1 r2 => lang r1 o \/ lang r2 o
  | Quant r1 min max => exists k, min <= k <= max /\ power (lang r1) k o
  | Bol | Eol => False
  end.

(** No assertion inside, and no quantifier out of order. *)
Fixpoint plain (r : regex) : bool :=
  match r with
  | Empty | Char _ | Class _ => true
  | Seq r1 r2 | Alt r1 r2 => plain r1 && plain r2
  | Quant r1 min max => plain r1 && (min <=? max)%nat
  | Bol | Eol => false
  end.

(** A matcher consumes exactly the strings of [L]: it succeeds from [x]
    with continuation [c] when some prefix of the rest is in [L] and [c]
    succeeds behind it. *)
Definition accepts (m : Matcher) (L : string -> Prop) : Prop :=
  forall x c,
    m x c = true <->
    exists o s', rest x = o ++ s' /\ L o
                 /\ c (State (endIndex x + String.length o) s') = true.

End RegExp.

Import RegExp.

(* ===================================================================== *)
(** ** [isValidIP] (lines 30-34) *)
(* ===================================================================== *)

Definition digit : regex := Class [("0", "9")]%char.
Definition hexdigit : regex := Class [("0", "9"); ("a", "f"); ("A", "F")]%char.

(** [25[0-5]|2[0-4][0-9]|[01]?[0-9][0-9]?] *)
Definition octet : regex :=
  Disjunction
    [ Alternative [Char "2"; Char "5"; Class [("0", "5")]%char];
      Alternative [Char "2"; Class [("0", "4")]%char; digit];
      Alternative [Quant (Class [("0", "0"); ("1", "1")]%char) 0 1; digit; Quant digit 0 1] ].

(** [^(?:(?:octet)\.){3}(?:octet)$] *)
Definition ipv4Regex : regex :=
  Alternative [Bol; Quant (Alternative [octet; Char "."]) 3 3; octet; Eol].

(** [[0-9a-fA-F]{1,4}] and [(?:[0-9a-fA-F]{1,4}:)] *)
Definition hextet : regex := Quant hexdigit 1 4.
Definition hextet_colon : regex := Alternative [hextet; Char ":"].

(** The four alternatives of the IPv6 literal, each anchored on its own:
    [^(h:){7}h$], [^::(h:){0,6}h$], [^(h:){1,7}:$] and
    [^(h:){0,6}::(h:){0,5}h$]. *)
Definition ipv6Regex : regex :=
  Disjunction
    [ Alternative [Bol; Quant hextet_colon 7 7; hextet; Eol];
      Alternative [Bol; Char ":"; Char ":"; Quant hextet_colon 0 6; hextet; Eol];
      Alternative [Bol; Quant hextet_colon 1 7; Char ":"; Eol];
      Alternative [Bol; Quant hextet_colon 0 6; Char ":"; Char ":";
                   Quant hextet_colon 0 5; hextet; Eol] ].

Definition isValidIP (ip : string) : bool :=
  test ipv4Regex ip || test ipv6Regex ip.

(** A dotted quad, said without patterns: an octet is one to three
    decimal digits whose value is at most 255. *)
Definition is_digit (ch : ascii) : Prop := 48 <= nat_of_ascii ch <= 57.

Definition digit_value (ch : ascii) : option nat :=
  if in_class [("0", "9")]%char ch then Some (nat_of_ascii ch - 48) else None.

Definition octet_value (o : string) : option nat :=
  match o with
  | String a "" => digit_value a
  | String a (String b "") =>
      match digit_value a, digit_value b with
      | Some x, Some y => Some (10 * x + y)
      | _, _ => None
      end
  | String a (String b (String c "")) =>
      match digit_value a, digit_value b, digit_value c with
      | Some x, Some y, Some z => Some (100 * x + 10 * y + z)
      | _, _, _ => None
      end
  | _ => None
  end.

Definition decimal_octet (o : string) : Prop :=
  exists v, octet_value o = Some v /\ v <= 255.

Definition dotted_quad (s : string) : Prop :=
  exists a b c d,
    s = a ++ "." ++ b ++ "." ++ c ++ "." ++ d
    /\ decimal_octet a /\ decimal_octet b /\ decimal_octet c /\ decimal_octet d.

(** The colon-hex strings, said without patterns: a group is one to four
    hexadecimal digits; [groups_colon] writes groups, each followed by a
    colon. *)
Fixpoint all_in_class (ranges : list (ascii * ascii)) (g : string) : bool :=
  match g with
  | EmptyString => true
  | String ch g' => in_class ranges ch && all_in_class ranges g'
  end.

Definition hex_group (g : string) : Prop :=
  1 <= String.length g <= 4
  /\ all_in_class [("0", "9"); ("a", "f"); ("A", "F")]%char g = true.

Fixpoint groups_colon (gs : list string) : string :=
  match gs with
  | [] => ""
  | g :: gs' => g ++ ":" ++ groups_colon gs'
  end.

(** The four shapes the IPv6 pattern is made of: eight groups; [::] and
    then one to seven groups; one to seven groups and then [::]; and up to
    six groups each with its colon, then [::], then one to six groups. *)
Definition colon_hex (s : string) : Prop :=
  (exists gs g,
     length gs = 7 /\ Forall hex_group (g :: gs) /\ s = groups_colon gs ++ g)
  \/ (exists gs g,
        length gs <= 6 /\ Forall hex_group (g :: gs) /\ s = "::" ++ groups_colon gs ++ g)
  \/ (exists gs,
        1 <= length gs <= 7 /\ Forall hex_group gs /\ s = groups_colon gs ++ ":")
  \/ (exists gs gs' g,
        length gs <= 6 /\ length gs' <= 5 /\ Forall hex_group (g :: gs ++ gs')
        /\ s = groups_colon gs ++ "::" ++ groups_colon gs' ++ g).

(* ===================================================================== *)
(** ** JavaScript values *)
(* ===================================================================== *)

#[local] Set Warnings "-register-all".

(** What [JSON.parse] produces and what the handlers build.  A number is an
    IEEE 754 binary64 value.  An object keeps its properties in insertion
    order, each key once (of a key written twice in a JSON text the decoder
    keeps the last value), so a read may take the first one it finds. *)
Inductive JSValue : Type :=
| JUndefined
| JNull
| JBool (b : bool)
| JNum (n : spec_float)
| JStr (s : string)
| JArr (items : list JSValue)
| JObj (props : list (string * JSValue)).

(** An exception object: every value this program throws or catches is an
    instance of [Error] or of one of its subclasses. *)
Record JsError : Type := mkError { name : string; message : string }.

Definition Error (msg : string) : JsError := mkError "Error" msg.
Definition TypeError (msg : string) : JsError := mkError "TypeError" msg.

(** A completion: a value or a thrown exception.  For a promise: fulfilled
    or rejected. *)
Inductive Result (A : Type) : Type :=
| Return (a : A)
| Throw (e : JsError).
Arguments Return {A} a.
Arguments Throw {A} e.

(** A [Response] of the Fetch API, as far as the program reads it: the
    status code, and what [response.json()] settles to. *)
Record Response : Type := mkResponse { status : Z; body : Result JSValue }.

(** [response.ok]: the status is in the range 200-299. *)
Definition ok (response : Response) : bool :=
  (200 <=? status response)%Z && (status response <=? 299)%Z.

Fixpoint own_property (k : string) (props : list (string * JSValue)) : option JSValue :=
  match props with
  | [] => None
  | (k', v) :: props' => if String.eqb k' k then Some v else own_property k props'
  end.

(** The own property [k] of a decoded record, when it is an object that has
    one; and the value a read of [k] gives on a value that is neither
    [null] nor [undefined]. *)
Definition field (data : JSValue) (k : string) : option JSValue :=
  match data with
  | JObj props => own_property k props
  | _ => None
  end.

Definition property (data : JSValue) (k : string) : JSValue :=
  match field data k with
  | Some v => v
  | None => JUndefined
  end.

Definition nullish (v : JSValue) : bool :=
  match v with
  | JUndefined | JNull => true
  | _ => false
  end.

Definition nullish_is_null (v : JSValue) : bool :=
  match v with
  | JNull => true
  | _ => false
  end.

(** [ToBoolean]: what [||] tests. *)
Definition ToBoolean (v : JSValue) : bool :=
  match v with
  | JUndefined | JNull => false
  | JBool b => b
  | JNum (S754_zero _) | JNum S754_nan => false
  | JNum _ => true
  | JStr s => negb (String.eqb s "")
  | JArr _ | JObj _ => true
  end.

(** [a || b] on values that are already evaluated. *)
Definition or_else (a b : JSValue) : JSValue := if ToBoolean a then a else b.

(** [v === 'lit'] *)
Definition strict_equals_string (v : JSValue) (lit : string) : bool :=
  match v with
  | JStr s => String.eqb s lit
  | _ => false
  end.

(** An integer as a Number, for [results.length]. *)
Definition Number_of_nat (n : nat) : spec_float :=
  binary_normalize 53 1024 (Z.of_nat n) 0 false.

(** The decimal digits of an integer, for [response.status] in a template. *)
Definition Integer_toString (z : Z) : string := NilZero.string_of_int (Z.to_int z).

(* ===================================================================== *)
(** ** Asynchronous computations *)
(* ===================================================================== *)

(** The body of an [async] function, as the tree of its effects.
    [AwaitFetch url k] has called [fetch(url)] and waits for the promise;
    [AwaitJson response k] waits for [response.json()]; [NewDate k] reads
    the clock and goes on at once. *)
Inductive Async (A : Type) : Type :=
| Settled (r : Result A)
| AwaitFetch (url : string) (k : Result Response -> Async A)
| AwaitJson (response : Response) (k : Result JSValue -> Async A)
| NewDate (k : Z -> Async A).
Arguments Settled {A} r.
Arguments AwaitFetch {A} url k.
Arguments AwaitJson {A} response k.
Arguments NewDate {A} k.

Definition ret {A} (a : A) : Async A := Settled (Return a).
Definition throw {A} (e : JsError) : Async A := Settled (Throw e).

Fixpoint bind {A B} (m : Async A) (f : A -> Async B) : Async B :=
  match m with
  | Settled (Return a) => f a
  | Settled (Throw e) => Settled (Throw e)
  | AwaitFetch url k => AwaitFetch url (fun r => bind (k r) f)
  | AwaitJson response k => AwaitJson response (fun r => bind (k r) f)
  | NewDate k => NewDate (fun t => bind (k t) f)
  end.

(** [try { m } catch (err) { h err }] *)
Fixpoint try_catch {A} (m : Async A) (h : JsError -> Async A) : Async A :=
  match m with
  | Settled (Return a) => Settled (Return a)
  | Settled (Throw e) => h e
  | AwaitFetch url k => AwaitFetch url (fun r => try_catch (k r) h)
  | AwaitJson response k => AwaitJson response (fun r => try_catch (k r) h)
  | NewDate k => NewDate (fun t => try_catch (k t) h)
  end.

Notation "'let*' x ':=' m 'in' k" := (bind m (fun x => k))
  (at level 10, x name, m at level 100, k at level 200).

(** [await fetch(url)] and [await response.json()] *)
Definition fetch (url : string) : Async Response := AwaitFetch url Settled.
Definition json (response : Response) : Async JSValue := AwaitJson response Settled.

(** An object literal: the property values are evaluated in source order. *)
Fixpoint properties (fields : list (string * Async JSValue)) : Async (list (string * JSValue)) :=
  match fields with
  | [] => ret []
  | (k, e) :: fields' =>
      let* v := e in
      let* vs := properties fields' in
      ret ((k, v) :: vs)
  end.

Definition object (fields : list (string * Async JSValue)) : Async JSValue :=
  let* props := properties fields in ret (JObj props).

(* ===================================================================== *)
(** ** Traces, tasks and [Promise.all] *)
(* ===================================================================== *)

(** What a run has done so far: the URLs requested, oldest first, and how
    often the clock was read. *)
Record Trace : Type := mkTrace { requests : list string; ticks : nat }.

Definition log_request (url : string) (t : Trace) : Trace :=
  mkTrace (requests t ++ [url]) (ticks t).
Definition tick (t : Trace) : Trace := mkTrace (requests t) (S (ticks t)).

(** An [async] call between two turns of the event loop: settled, waiting
    for the answer to request number [req], or waiting for a body. *)
Inductive Task (A : Type) : Type :=
| Finished (r : Result A)
| InFlight (req : nat) (url : string) (k : Result Response -> Async A)
| Reading (response : Response) (k : Result JSValue -> Async A).
Arguments Finished {A} r.
Arguments InFlight {A} req url k.
Arguments Reading {A} response k.

Definition fulfilled {A} (task : Task A) : option A :=
  match task with
  | Finished (Return a) => Some a
  | _ => None
  end.

(** The values of the tasks by index, once all of them are fulfilled. *)
Fixpoint all_values {A} (tasks : list (Task A)) : option (list A) :=
  match tasks with
  | [] => Some []
  | task :: tasks' =>
      match fulfilled task, all_values tasks' with
      | Some a, Some vs => Some (a :: vs)
      | _, _ => None
      end
  end.

Fixpoint first_rejected {A} (tasks : list (Task A)) : option JsError :=
  match tasks with
  | [] => None
  | Finished (Throw e) :: _ => Some e
  | _ :: tasks' => first_rejected tasks'
  end.

(** Whether [Promise.all] is settled right after the calls were made. *)
Definition joined_at_start {A} (tasks : list (Task A)) : option (Result (list A)) :=
  match first_rejected tasks with
  | Some e => Some (Throw e)
  | None => Return <$> all_values tasks
  end.

(** Whether it settles when one task has just taken a step: a rejection
    rejects it, the last fulfilment fulfils it with the values in index
    order. *)
Definition joined_after {A} (stepped : Task A) (tasks : list (Task A))
  : option (Result (list A)) :=
  match stepped with
  | Finished (Throw e) => Some (Throw e)
  | Finished (Return _) => Return <$> all_values tasks
  | _ => None
  end.

(** The handler [await Promise.all(items.map(callback))] followed by
    [after]: the tasks, the trace, and the handler's completion once it has
    one. *)
Record Loop (A B : Type) : Type :=
  mkLoop { tasks : list (Task A); trace : Trace; completion : option (Result B) }.
Arguments mkLoop {A B} tasks trace completion.
Arguments tasks {A B} l.
Arguments trace {A B} l.
Arguments completion {A B} l.

(* ===================================================================== *)
(** ** The host and the world *)
(* ===================================================================== *)

(** What the engine decides and the source does not: the message of the
    [TypeError] for a property read on [null] or [undefined], [ToString] of
    a number and of an object or array (which may throw), and the two
    [Date] formatters ([toLocaleString] throws a [RangeError] on a time
    zone it does not know). *)
Class Host : Type := mkHost {
  null_read_message : JSValue -> string -> string;
  Number_toString : spec_float -> string;
  Object_toString : JSValue -> Result string;
  toISOString : Z -> string;
  toLocaleString : Z -> string -> JSValue -> Result string
}.

(** [upstream n url] is what the [n]-th call of [fetch] (counted from 0),
    made for [url], settles to: rejected for a transport failure, else
    fulfilled with a response.  [clock n] is the time the [n]-th
    [new Date()] reads. *)
Record World : Type := mkWorld {
  upstream : nat -> string -> Result Response;
  clock : nat -> Z
}.

(* ===================================================================== *)
(** ** Running a handler *)
(* ===================================================================== *)

(** One [async] function on its own: every promise it awaits is settled
    before anything else happens. *)
Fixpoint run {A} (w : World) (m : Async A) (t : Trace) : Result A * Trace :=
  match m with
  | Settled r => (r, t)
  | AwaitFetch url k => run w (k (upstream w (length (requests t)) url)) (log_request url t)
  | AwaitJson response k => run w (k (body response)) t
  | NewDate k => run w (k (clock w (ticks t))) (tick t)
  end.

(** *** The event loop of [Promise.all] *)

(** Run [m] up to its next [await]; a [fetch] reached on the way is
    issued at once. *)
Fixpoint start {A} (w : World) (m : Async A) (t : Trace) : Task A * Trace :=
  match m with
  | Settled r => (Finished r, t)
  | AwaitFetch url k => (InFlight (length (requests t)) url k, log_request url t)
  | AwaitJson response k => (Reading response k, t)
  | NewDate k => start w (k (clock w (ticks t))) (tick t)
  end.

(** The awaited promise has settled: go on up to the next [await]. *)
Definition resume {A} (w : World) (task : Task A) (t : Trace) : Task A * Trace :=
  match task with
  | Finished r => (Finished r, t)
  | InFlight req url k => start w (k (upstream w req url)) t
  | Reading response k => start w (k (body response)) t
  end.

(** [items.map(callback)]: the calls are made in order, each one running
    up to its first [await]. *)
Fixpoint spawn {A} (w : World) (ms : list (Async A)) (t : Trace) : list (Task A) * Trace :=
  match ms with
  | [] => ([], t)
  | m :: ms' =>
      let (task, t1) := start w m t in
      let (tasks, t2) := spawn w ms' t1 in
      (task :: tasks, t2)
  end.

(** When [Promise.all] settles while the handler still waits for it, the
    handler goes on with [after] on the trace as it is then. *)
Definition wake {A B} (w : World) (after : Result (list A) -> Async B)
    (joined : option (Result (list A))) (l : Loop A B) : Loop A B :=
  match completion l, joined with
  | None, Some r =>
      let (res, t') := run w (after r) (trace l) in
      mkLoop (tasks l) t' (Some res)
  | _, _ => l
  end.

(** The handler up to its [await]: the calls are made, and it goes on at
    once if none of them has anything to wait for. *)
Definition enter {A B} (w : World) (ms : list (Async A)) (after : Result (list A) -> Async B)
    (t : Trace) : Loop A B :=
  let (ts, t') := spawn w ms t in
  wake w after (joined_at_start ts) (mkLoop ts t' None).

(** The promise task [i] awaits settles.  Nothing happens for an index
    out of range or a task that is settled already. *)
Definition deliver {A B} (w : World) (after : Result (list A) -> Async B) (l : Loop A B) (i : nat)
  : Loop A B :=
  match tasks l !! i with
  | None | Some (Finished _) => l
  | Some task =>
      let (task', t') := resume w task (trace l) in
      let ts := <[i := task']> (tasks l) in
      wake w after (joined_after task' ts) (mkLoop ts t' (completion l))
  end.

(** The event loop under a schedule: the indices of the tasks in the order
    their promises settle. *)
Definition event_loop {A B} (w : World) (after : Result (list A) -> Async B) (l : Loop A B)
    (schedule : list nat) : Loop A B :=
  fold_left (deliver w after) schedule l.

(* ===================================================================== *)
(** ** Measures on computations and tasks, for the proofs *)
(* ===================================================================== *)

(** The completion of a computation that has nothing left to wait for but
    bodies, and the number of bodies it waits for. *)
Fixpoint settle {A} (m : Async A) : option (Result A) :=
  match m with
  | Settled r => Some r
  | AwaitJson response k => settle (k (body response))
  | AwaitFetch _ _ | NewDate _ => None
  end.

Fixpoint reads {A} (m : Async A) : nat :=
  match m with
  | AwaitJson response k => S (reads (k (body response)))
  | _ => 0
  end.

(** The same for a task: what it settles to, and how many of its promises
    have yet to settle before it does. *)
Definition task_settle {A} (w : World) (task : Task A) : option (Result A) :=
  match task with
  | Finished r => Some r
  | InFlight req url k => settle (k (upstream w req url))
  | Reading response k => settle (k (body response))
  end.

Definition task_awaits {A} (w : World) (task : Task A) : nat :=
  match task with
  | Finished _ => 0
  | InFlight req url k => S (reads (k (upstream w req url)))
  | Reading response k => S (reads (k (body response)))
  end.

(** A call that makes at most one request, first thing, reads no clock
    and settles once at most [n] of its promises have. *)
Definition one_request {A} (n : nat) (m : Async A) : Prop :=
  match m with
  | AwaitFetch _ k => forall answer, is_Some (settle (k answer)) /\ S (reads (k answer)) <= n
  | _ => is_Some (settle m) /\ reads m <= n
  end.

(** The calls one after the other, each run to its end before the next
    one starts. *)
Fixpoint run_all {A} (w : World) (ms : list (Async A)) (t : Trace)
  : list (Result A) * Trace :=
  match ms with
  | [] => ([], t)
  | m :: ms' =>
      let (r, t1) := run w m t in
      let (rs, t2) := run_all w ms' t1 in
      (r :: rs, t2)
  end.

(** The tasks and the completions they are heading for. *)
Definition heading {A} (w : World) (tasks : list (Task A)) (rs : list (Result A)) : Prop :=
  Forall2 (fun task r => task_settle w task = Some r) tasks rs.

(** The state of the loop when every call is heading for a value of [vs]:
    either the handler still waits, on trace [t1], and some task is not
    fulfilled; or every task is fulfilled and the handler has run [after]
    on [vs] from [t1]. *)
Definition steady {A B} (w : World) (after : Result (list A) -> Async B)
    (vs : list A) (t1 : Trace) (l : Loop A B) : Prop :=
  heading w (tasks l) (Return <$> vs)
  /\ ((completion l = None /\ trace l = t1 /\ all_values (tasks l) = None)
      \/ (completion l = Some (fst (run w (after (Return vs)) t1))
          /\ trace l = snd (run w (after (Return vs)) t1)
          /\ all_values (tasks l) = Some vs)).

(* ===================================================================== *)
(** ** The agent *)
(* ===================================================================== *)

Section Agent.

Context {host : Host}.

(** [v.k], for the property names this program reads: none of them is
    defined on a prototype, so a read on a primitive or an array, or of a
    property the object does not have, gives [undefined]. *)
Definition Get (v : JSValue) (k : string) : Result JSValue :=
  match v with
  | JUndefined | JNull => Throw (TypeError (null_read_message v k))
  | JObj props =>
      Return (match own_property k props with Some x => x | None => JUndefined end)
  | JBool _ | JNum _ | JStr _ | JArr _ => Return JUndefined
  end.

Definition get (v : JSValue) (k : string) : Async JSValue := Settled (Get v k).

(** [ToString], for a template literal and for the message of an [Error]. *)
Definition ToString (v : JSValue) : Result string :=
  match v with
  | JUndefined => Return "undefined"
  | JNull => Return "null"
  | JBool true => Return "true"
  | JBool false => Return "false"
  | JNum n => Return (Number_toString n)
  | JStr s => Return s
  | JArr _ | JObj _ => Object_toString v
  end.

(** [new Error(message)] for a [message] that is not [undefined]. *)
Definition new_Error (msg : JSValue) : Result JsError :=
  match ToString msg with
  | Return s => Return (Error s)
  | Throw e => Throw e
  end.

(** [new Date().toISOString()] *)
Definition now_ISO : Async JSValue := NewDate (fun t => ret (JStr (toISOString t))).

(* ===================================================================== *)
(** ** [fetchIPData] (lines 19-27) *)
(* ===================================================================== *)

Definition defaultFields : string :=
  "status,message,country,countryCode,region,regionName,city,zip,lat,lon,timezone,isp,org,as,query".

(** [fields || defaultFields]: an absent or empty [fields] gives the default. *)
Definition fields_or_default (fields : option string) : string :=
  match fields with
  | Some f => if String.eqb f "" then defaultFields else f
  | None => defaultFields
  end.

Definition request_url (ip : string) (fields : option string) : string :=
  "http://ip-api.com/json/" ++ ip ++ "?fields=" ++ fields_or_default fields.

Definition fetchIPData (ip : string) (fields : option string) : Async JSValue :=
  let url := request_url ip fields in
  let* response := fetch url in
  if negb (ok response) then
    throw (Error ("API error: " ++ Integer_toString (status response)))
  else
    let* data := json response in
    let* st := get data "status" in
    if strict_equals_string st "fail" then
      let* msg := get data "message" in
      match new_Error (or_else msg (JStr "Invalid IP address")) with
      | Return e => throw e
      | Throw e => throw e
      end
    else ret data.

(** What [fetchIPData] does once [fetch] has settled to [answer]
    (lines 23-26). *)
Definition received (answer : Result Response) : Async JSValue :=
  let* response := Settled answer in
  if negb (ok response) then
    throw (Error ("API error: " ++ Integer_toString (status response)))
  else
    let* data := json response in
    let* st := get data "status" in
    if strict_equals_string st "fail" then
      let* msg := get data "message" in
      match new_Error (or_else msg (JStr "Invalid IP address")) with
      | Return e => throw e
      | Throw e => throw e
      end
    else ret data.

(** The provider reports a logical failure: [data.status === 'fail']. *)
Definition status_fail (data : JSValue) : bool :=
  strict_equals_string (property data "status") "fail".

(* ===================================================================== *)
(** ** The entrypoints *)
(* ===================================================================== *)

(** What [addEntrypoint] registers beside the handler. *)
Record Entrypoint : Type := mkEntrypoint { key : string; description : string; price_amount : Z }.

(** *** overview (lines 37-67) *)

Definition overview : Entrypoint :=
  mkEntrypoint "overview"
    "Free overview - sample IP lookup and service info. Try before you buy." 0.

Definition overview_handler : Async JSValue :=
  let* sample := fetchIPData "8.8.8.8" None in
  object
    [ ("output", object
        [ ("service", ret (JStr "IP Intelligence Agent"));
          ("description", ret (JStr "Real-time IP geolocation, ISP info, and timezone data"));
          ("dataSource", ret (JStr "ip-api.com (live)"));
          ("sampleLookup", object
             [ ("ip", get sample "query");
               ("country", get sample "country");
               ("city", get sample "city");
               ("isp", get sample "isp") ]);
          ("endpoints", object
             [ ("lookup", ret (JStr "Single IP lookup - $0.001"));
               ("bulk", ret (JStr "Bulk IP lookup (up to 10) - $0.003"));
               ("geolocate", ret (JStr "Detailed geolocation - $0.002"));
               ("timezone", ret (JStr "Timezone info - $0.001"));
               ("isp-info", ret (JStr "ISP/Organization details - $0.002")) ]);
          ("fetchedAt", now_ISO) ]) ].

(** *** lookup (lines 70-99) *)

Definition lookup : Entrypoint :=
  mkEntrypoint "lookup" "Look up geolocation and network info for a single IP address" 1000.

Definition lookup_handler (ip : string) : Async JSValue :=
  if negb (isValidIP ip) then throw (Error "Invalid IP address format")
  else
    let* data := fetchIPData ip None in
    object
      [ ("output", object
          [ ("ip", get data "query");
            ("country", get data "country");
            ("countryCode", get data "countryCode");
            ("region", get data "regionName");
            ("city", get data "city");
            ("zip", get data "zip");
            ("coordinates", object [("lat", get data "lat"); ("lon", get data "lon")]);
            ("timezone", get data "timezone");
            ("isp", get data "isp");
            ("organization", get data "org");
            ("asn", get data "as");
            ("fetchedAt", now_ISO) ]) ].

(** *** bulk (lines 102-138) *)

Definition bulk : Entrypoint :=
  mkEntrypoint "bulk" "Look up multiple IP addresses at once (max 10)" 3000.

(** [z.array(z.string()).min(1).max(10)] *)
Definition bulk_schema (ips : list string) : bool :=
  (1 <=? length ips)%nat && (length ips <=? 10)%nat.

(** The callback of [ctx.input.ips.map] (lines 111-128). *)
Definition bulk_callback (ip : string) : Async JSValue :=
  if negb (isValidIP ip) then
    ret (JObj [("ip", JStr ip); ("error", JStr "Invalid IP format")])
  else
    try_catch
      (let* data := fetchIPData ip None in
       object
         [ ("ip", get data "query");
           ("country", get data "country");
           ("countryCode", get data "countryCode");
           ("city", get data "city");
           ("isp", get data "isp");
           ("coordinates", object [("lat", get data "lat"); ("lon", get data "lon")]) ])
      (fun err => ret (JObj [("ip", JStr ip); ("error", JStr (message err))])).

(** What follows [await Promise.all(...)] (lines 130-136). *)
Definition bulk_return (joined : Result (list JSValue)) : Async JSValue :=
  let* results := Settled joined in
  object
    [ ("output", object
        [ ("count", ret (JNum (Number_of_nat (length results))));
          ("results", ret (JArr results));
          ("fetchedAt", now_ISO) ]) ].

(** *** geolocate (lines 141-174) *)

Definition geolocate : Entrypoint :=
  mkEntrypoint "geolocate"
    "Get detailed geographic location for an IP with coordinates and regional data" 2000.

(** [`https://www.google.com/maps?q=${data.lat},${data.lon}`] *)
Definition mapsUrl (data : JSValue) : Async JSValue :=
  let* lat := get data "lat" in
  let* lat_s := Settled (ToString lat) in
  let* lon := get data "lon" in
  let* lon_s := Settled (ToString lon) in
  ret (JStr ("https://www.google.com/maps?q=" ++ lat_s ++ "," ++ lon_s)).

Definition geolocate_handler (ip : string) : Async JSValue :=
  if negb (isValidIP ip) then throw (Error "Invalid IP address format")
  else
    let* data := fetchIPData ip None in
    object
      [ ("output", object
          [ ("ip", get data "query");
            ("location", object
               [ ("country", get data "country");
                 ("countryCode", get data "countryCode");
                 ("region", get data "region");
                 ("regionName", get data "regionName");
                 ("city", get data "city");
                 ("postalCode", get data "zip") ]);
            ("coordinates", object
               [ ("latitude", get data "lat");
                 ("longitude", get data "lon");
                 ("mapsUrl", mapsUrl data) ]);
            ("timezone", get data "timezone");
            ("fetchedAt", now_ISO) ]) ].

(** *** timezone (lines 177-205) *)

Definition timezone : Entrypoint :=
  mkEntrypoint "timezone" "Get timezone information for an IP address" 1000.

Definition timezone_handler (ip : string) : Async JSValue :=
  if negb (isValidIP ip) then throw (Error "Invalid IP address format")
  else
    let* data := fetchIPData ip (Some "status,message,query,timezone,countryCode,city") in
    NewDate (fun now =>
      let* tz := get data "timezone" in
      let* localTime := Settled (toLocaleString now "en-US" tz) in
      object
        [ ("output", object
            [ ("ip", get data "query");
              ("timezone", get data "timezone");
              ("country", get data "countryCode");
              ("city", get data "city");
              ("currentLocalTime", ret (JStr localTime));
              ("fetchedAt", now_ISO) ]) ]).

(** *** isp-info (lines 208-236) *)

Definition isp_info : Entrypoint :=
  mkEntrypoint "isp-info"
    "Get ISP and organization details for an IP address - useful for fraud detection and security"
    2000.

(** [data.k || false] *)
Definition flag (data : JSValue) (k : string) : Async JSValue :=
  let* v := get data k in ret (or_else v (JBool false)).

Definition isp_info_handler (ip : string) : Async JSValue :=
  if negb (isValidIP ip) then throw (Error "Invalid IP address format")
  else
    let* data :=
      fetchIPData ip (Some "status,message,query,isp,org,as,asname,mobile,proxy,hosting") in
    object
      [ ("output", object
          [ ("ip", get data "query");
            ("isp", get data "isp");
            ("organization", get data "org");
            ("asn", get data "as");
            ("asName", get data "asname");
            ("flags", object
               [ ("mobile", flag data "mobile");
                 ("proxy", flag data "proxy");
                 ("hosting", flag data "hosting") ]);
            ("fetchedAt", now_ISO) ]) ].

Definition entrypoints : list Entrypoint :=
  [overview; lookup; bulk; geolocate; timezone; isp_info].

(** The bulk handler (lines 109-137) from trace [t] under [schedule]. *)
Definition bulk_handler (w : World) (ips : list string) (t : Trace) (schedule : list nat)
  : Loop JSValue JSValue :=
  event_loop w bulk_return (enter w (map bulk_callback ips) bulk_return t) schedule.

(** The trace on which the callback for entry [i] starts: the handler's
    own, with the requests of the valid entries before [i] added.  The
    request of entry [i], if it makes one, has the number
    [length (requests (entry_trace ips t i))]. *)
Definition entry_trace (ips : list string) (t : Trace) (i : nat) : Trace :=
  mkTrace
    (requests t ++ map (fun ip => request_url ip None) (List.filter isValidIP (take i ips)))
    (ticks t).

(** What the lookup made for entry [i] settles to. *)
Definition entry_lookup (w : World) (ips : list string) (t : Trace) (i : nat) (ip : string)
  : Result JSValue :=
  fst (run w (fetchIPData ip None) (entry_trace ips t i)).

(** Under [schedule], every promise a callback waits for is settled:
    entry [i] is delivered at least as often as its callback awaits (not
    at all when the address is invalid, once when [fetch] rejects or the
    status is not a success, twice otherwise). *)
Definition complete (w : World) (ips : list string) (t : Trace) (schedule : list nat) : Prop :=
  forall i task,
    fst (spawn w (map bulk_callback ips) t) !! i = Some task ->
    task_awaits w task <= count_occ Nat.eq_dec schedule i.

(** The two shapes of an outcome (lines 113, 117-124 and 126). *)
Definition error_outcome (ip msg : string) : JSValue :=
  JObj [("ip", JStr ip); ("error", JStr msg)].

Definition success_outcome (data : JSValue) : JSValue :=
  JObj
    [ ("ip", property data "query");
      ("country", property data "country");
      ("countryCode", property data "countryCode");
      ("city", property data "city");
      ("isp", property data "isp");
      ("coordinates", JObj [("lat", property data "lat"); ("lon", property data "lon")]) ].

(** The handler's output for a list of outcomes read at time [now]. *)
Definition bulk_output (results : list JSValue) (now : Z) : JSValue :=
  JObj
    [ ("output",
       JObj
         [ ("count", JNum (Number_of_nat (length results)));
           ("results", JArr results);
           ("fetchedAt", JStr (toISOString now)) ]) ].

End Agent.


(* ===================================================================== *)
(** ** A host and some worlds *)
(* ===================================================================== *)

(** A host with the messages of Node.js, and formatters that print one
    fixed text each. *)
Definition node : Host :=
  mkHost
    (fun v k =>
       "Cannot read properties of "
       ++ (if nullish_is_null v then "null" else "undefined")
       ++ " (reading '" ++ k ++ "')")
    (fun _ => "0")
    (fun _ => Return "[object Object]")
    (fun _ => "2024-01-01T00:00:00.000Z")
    (fun _ _ _ => Return "1/1/2024, 12:00:00 AM").

Definition google_dns : JSValue :=
  JObj [ ("status", JStr "success"); ("country", JStr "United States");
         ("countryCode", JStr "US"); ("city", JStr "Ashburn");
         ("lat", JNum (Number_of_nat 39)); ("lon", JNum (Number_of_nat 77));
         ("isp", JStr "Google LLC"); ("query", JStr "8.8.8.8");
         ("proxy", JBool true) ].

Definition reserved_range : JSValue :=
  JObj [ ("status", JStr "fail"); ("message", JStr "reserved range");
         ("query", JStr "10.0.0.1") ].

Definition fail_without_text : JSValue :=
  JObj [ ("status", JStr "fail"); ("message", JStr "") ].

Definition answers (a : Result Response) : World := mkWorld (fun _ _ => a) Z.of_nat.

(** Every request is answered with the record of 8.8.8.8. *)
Definition world_up : World := answers (Return (mkResponse 200 (Return google_dns))).

(** Every request is answered with status 200 and a body that is no JSON. *)
Definition not_json : JsError := mkError "SyntaxError" "Unexpected token < in JSON at position 0".
Definition world_html : World := answers (Return (mkResponse 200 (Throw not_json))).

(** Every request is answered with a failure report whose message is empty. *)
Definition world_mute : World := answers (Return (mkResponse 200 (Return fail_without_text))).

(** Request 0 succeeds, request 1 gets status 500, request 2 a failure
    report, request 3 is never answered, later ones get [null]. *)
Definition world_mixed : World :=
  mkWorld
    (fun n _ =>
       match n with
       | 0 => Return (mkResponse 200 (Return google_dns))
       | 1 => Return (mkResponse 500 (Return JNull))
       | 2 => Return (mkResponse 200 (Return reserved_range))
       | 3 => Throw (TypeError "fetch failed")
       | _ => Return (mkResponse 200 (Return JNull))
       end)
    Z.of_nat.

(** The same, but request 0 gets status 503. *)
Definition world_mixed_down : World :=
  mkWorld
    (fun n url =>
       match n with
       | 0 => Return (mkResponse 503 (Return JNull))
       | _ => upstream world_mixed n url
       end)
    Z.of_nat.

Definition idle : Trace := mkTrace [] 0.

(** The bulk input of the specification's scenario, and an order in which
    the answer for the last entry arrives first. *)
Definition three_ips : list string := ["8.8.8.8"; "not-an-ip"; "1.1.1.1"].
Definition last_first : list nat := [2; 0; 0].

(* ===================================================================== *)
(** ** Facts about computations *)
(* ===================================================================== *)

Section AsyncFacts.

Context {A B : Type}.
Implicit Types (w : World) (t : Trace).

Lemma run_bind w (m : Async A) (f : A -> Async B) t :
  run w (bind m f) t =
  match run w m t with
  | (Return a, t1) => run w (f a) t1
  | (Throw e, t1) => (Throw e, t1)
  end.
Proof.
  revert t.
  induction m as [[a | e] | url k IH | response k IH | k IH]; intros t; simpl; auto.
Qed.

Lemma run_try_catch w (m : Async A) (h : JsError -> Async A) t :
  run w (try_catch m h) t =
  match run w m t with
  | (Return a, t1) => (Return a, t1)
  | (Throw e, t1) => run w (h e) t1
  end.
Proof.
  revert t.
  induction m as [[a | e] | url k IH | response k IH | k IH]; intros t; simpl; auto.
Qed.

End AsyncFacts.

Section AgentFacts.

Context {engine : Host}.
Implicit Types (w : World) (t : Trace) (ip : string) (data : JSValue).

Lemma Get_property data k : nullish data = false -> Get data k = Return (property data k).
Proof. destruct data; simpl; intros E; try discriminate; reflexivity. Qed.

Lemma get_property data k : nullish data = false -> get data k = ret (property data k).
Proof. intros E. unfold get. now rewrite Get_property. Qed.

Lemma fetchIPData_await ip fields :
  fetchIPData ip fields = AwaitFetch (request_url ip fields) received.
Proof. reflexivity. Qed.

Lemma run_fetchIPData w ip fields t :
  run w (fetchIPData ip fields) t =
  run w (received (upstream w (length (requests t)) (request_url ip fields)))
    (log_request (request_url ip fields) t).
Proof. reflexivity. Qed.

(** Once the answer is there, [fetchIPData] touches neither the network
    nor the clock. *)
Lemma run_received w answer t : snd (run w (received answer) t) = t.
Proof.
  unfold received.
  destruct answer as [response | e]; simpl; [| reflexivity].
  destruct (ok response); simpl; [| reflexivity].
  destruct (body response) as [data | e]; simpl; [| reflexivity].
  destruct (Get data "status") as [st | e]; simpl; [| reflexivity].
  destruct (strict_equals_string st "fail"); simpl; [| reflexivity].
  destruct (Get data "message") as [msg | e]; simpl; [| reflexivity].
  destruct (new_Error _); reflexivity.
Qed.

Lemma received_world w w' answer t t' :
  fst (run w (received answer) t) = fst (run w' (received answer) t').
Proof.
  unfold received.
  destruct answer as [response | e]; simpl; [| reflexivity].
  destruct (ok response); simpl; [| reflexivity].
  destruct (body response) as [data | e]; simpl; [| reflexivity].
  destruct (Get data "status") as [st | e]; simpl; [| reflexivity].
  destruct (strict_equals_string st "fail"); simpl; [| reflexivity].
  destruct (Get data "message") as [msg | e]; simpl; [| reflexivity].
  destruct (new_Error _); reflexivity.
Qed.

(** A record [fetchIPData] returns is the decoded body of a response with
    a success status; it is neither [null] nor [undefined] and does not
    report a failure. *)
Lemma received_Return w answer t data :
  fst (run w (received answer) t) = Return data ->
  exists response,
    answer = Return response /\ ok response = true /\ body response = Return data
    /\ nullish data = false /\ status_fail data = false.
Proof.
  unfold received, status_fail.
  destruct answer as [response | e]; simpl; [| discriminate].
  destruct (ok response) eqn:Eok; simpl; [| discriminate].
  destruct (body response) as [d | e] eqn:Ebody; simpl; [| discriminate].
  destruct (nullish d) eqn:En.
  { destruct d; discriminate. }
  rewrite (Get_property d "status" En); simpl.
  destruct (strict_equals_string (property d "status") "fail") eqn:Est; simpl.
  - rewrite (Get_property d "message" En); simpl.
    destruct (new_Error _); discriminate.
  - intros [= <-]. exists response. auto.
Qed.

Lemma fetchIPData_Return w ip fields t data t1 :
  run w (fetchIPData ip fields) t = (Return data, t1) ->
  nullish data = false /\ t1 = log_request (request_url ip fields) t.
Proof.
  rewrite run_fetchIPData. intros E. split.
  - destruct (received_Return w _ _ data (f_equal fst E)) as (response & _ & _ & _ & En & _).
    exact En.
  - apply (f_equal snd) in E. rewrite run_received in E. auto.
Qed.

End AgentFacts.

(* ===================================================================== *)
(** ** The validator *)
(* ===================================================================== *)

Section Matcher.

Implicit Types (m : Matcher) (L : string -> Prop) (x : state) (c : Continuation).

Lemma append_nil_r (s : string) : s ++ "" = s.
Proof. induction s as [| ch s IH]; simpl; [reflexivity | now rewrite IH]. Qed.

Lemma append_assoc (s1 s2 s3 : string) : (s1 ++ s2) ++ s3 = s1 ++ s2 ++ s3.
Proof. induction s1 as [| ch s1 IH]; simpl; [reflexivity | now rewrite IH]. Qed.

Lemma length_append (s1 s2 : string) :
  String.length (s1 ++ s2) = String.length s1 + String.length s2.
Proof. induction s1 as [| c s1 IH]; simpl; [reflexivity | now rewrite IH]. Qed.

Lemma state_here x : State (endIndex x + 0) (rest x) = x.
Proof. destruct x. simpl. now rewrite Nat.add_0_r. Qed.

Lemma accepts_character (p : ascii -> bool) :
  accepts (CharacterSetMatcher p) (fun o => exists ch, o = String ch "" /\ p ch = true).
Proof.
  intros x c. unfold CharacterSetMatcher. split.
  - destruct (rest x) as [| ch s] eqn:E; [discriminate |].
    destruct (p ch) eqn:Ep; [| discriminate]. intros Hc.
    exists (String ch ""), s. simpl. rewrite Nat.add_1_r. eauto.
  - intros (o & s' & E & (ch & -> & Ep) & Hc). rewrite E. simpl in *.
    rewrite Ep. now rewrite Nat.add_1_r in Hc.
Qed.

Lemma accepts_sequence m1 m2 L1 L2 :
  accepts m1 L1 -> accepts m2 L2 ->
  accepts (fun x c => m1 x (fun y => m2 y c))
          (fun o => exists o1 o2, o = o1 ++ o2 /\ L1 o1 /\ L2 o2).
Proof.
  unfold accepts. intros H1 H2 x c. split.
  - intros H. apply H1 in H as (o1 & s1 & E1 & Ho1 & Hm2).
    apply H2 in Hm2 as (o2 & s2 & E2 & Ho2 & Hc).
    simpl in *. subst s1. exists (o1 ++ o2), s2.
    rewrite append_assoc, length_append, Nat.add_assoc. eauto 8.
  - intros (o & s' & E & (o1 & o2 & -> & Ho1 & Ho2) & Hc).
    apply H1.
    exists o1, (o2 ++ s'). rewrite <- append_assoc. split; [exact E |]. split; [exact Ho1 |].
    apply H2. exists o2, s'. simpl.
    now rewrite length_append, Nat.add_assoc in Hc.
Qed.

Lemma accepts_repeat m L :
  accepts m L ->
  forall max min, min <= max ->
    accepts (RepeatMatcher m min max) (fun o => exists k, min <= k <= max /\ power L k o).
Proof.
  unfold accepts. intros Hm. induction max as [| max IH]; intros min Hle x c.
  - simpl. split.
    + intros Hc. exists "", (rest x). rewrite state_here. split; [reflexivity |].
      split; [| exact Hc]. exists 0. split; [lia | reflexivity].
    + intros (o & s' & E & (k & Hk & Hp) & Hc).
      assert (k = 0) as -> by lia. simpl in Hp. subst o. simpl in E. subst s'.
      now rewrite state_here in Hc.
  - cbn [RepeatMatcher]. destruct min as [| min]; cbn [Nat.eqb andb Nat.pred].
    + (* the body is optional *)
      rewrite orb_true_iff. split.
      * intros [H | Hc].
        -- apply Hm in H as (o1 & s1 & E1 & Ho1 & Hd). cbn [endIndex] in Hd.
           destruct (Nat.eqb_spec (endIndex x + String.length o1) (endIndex x));
             [discriminate |].
           apply (IH 0 ltac:(lia)) in Hd as (o2 & s2 & E2 & (k & Hk & Hp) & Hc).
           simpl in *. subst s1. exists (o1 ++ o2), s2.
           rewrite append_assoc, length_append, Nat.add_assoc.
           split; [exact E1 |]. split; [| exact Hc].
           exists (S k). split; [lia |]. simpl. eauto.
        -- exists "", (rest x). rewrite state_here. split; [reflexivity |].
           split; [| exact Hc]. exists 0. split; [lia | reflexivity].
      * intros (o & s' & E & (k & Hk & Hp) & Hc).
        revert o E Hp Hc Hk. induction k as [| k IHk]; intros o E Hp Hc Hk.
        -- right. simpl in Hp. subst o. simpl in E. subst s'.
           now rewrite state_here in Hc.
        -- destruct Hp as (o1 & o2 & -> & Ho1 & Hp).
           destruct o1 as [| ch o1].
           { apply (IHk o2); auto. lia. }
           left. apply Hm. exists (String ch o1), (o2 ++ s').
           rewrite <- append_assoc. split; [exact E |]. split; [exact Ho1 |].
           cbn [endIndex].
           destruct (Nat.eqb_spec (endIndex x + String.length (String ch o1)) (endIndex x))
             as [Heq |]; [simpl in Heq; lia |].
           apply (IH 0 ltac:(lia)). exists o2, s'. split; [reflexivity |].
           split; [exists k; split; [lia | exact Hp] |].
           cbn [endIndex rest]. now rewrite length_append, Nat.add_assoc in Hc.
    + (* one more is owed *)
      split.
      * intros H. apply Hm in H as (o1 & s1 & E1 & Ho1 & Hd).
        apply (IH min ltac:(lia)) in Hd as (o2 & s2 & E2 & (k & Hk & Hp) & Hc).
        simpl in *. subst s1. exists (o1 ++ o2), s2.
        rewrite append_assoc, length_append, Nat.add_assoc.
        split; [exact E1 |]. split; [| exact Hc].
        exists (S k). split; [lia |]. simpl. eauto.
      * intros (o & s' & E & (k & Hk & Hp) & Hc).
        destruct k as [| k]; [lia |]. destruct Hp as (o1 & o2 & -> & Ho1 & Hp).
        apply Hm.
        exists o1, (o2 ++ s'). rewrite <- append_assoc. split; [exact E |].
        split; [exact Ho1 |].
        apply (IH min ltac:(lia)). exists o2, s'. split; [reflexivity |].
        split; [exists k; split; [lia | exact Hp] |].
        cbn [endIndex rest]. now rewrite length_append, Nat.add_assoc in Hc.
Qed.

(** The matcher of a pattern without assertions consumes the strings of
    its language. *)
Lemma compile_accepts (r : regex) :
  plain r = true -> accepts (CompileSubpattern r) (lang r).
Proof.
  induction r as [| ch | ranges | r1 IH1 r2 IH2 | r1 IH1 r2 IH2 | r1 IH1 min max | |];
    simpl; intros Hp; try discriminate.
  - intros x c. split.
    + intros Hc. exists "", (rest x). rewrite state_here. auto.
    + intros (o & s' & E & -> & Hc). simpl in E. subst s'. now rewrite state_here in Hc.
  - intros x c. split.
    + intros H. apply (accepts_character (Ascii.eqb ch)) in H
        as (o & s' & E & (a & -> & Ea) & Hc).
      apply Ascii.eqb_eq in Ea. subst a. eauto 6.
    + intros (o & s' & E & -> & Hc). apply (accepts_character (Ascii.eqb ch)).
      exists (String ch ""), s'.
      split; [exact E |]. split; [| exact Hc]. exists ch. now rewrite Ascii.eqb_refl.
  - apply accepts_character.
  - apply andb_true_iff in Hp as [Hp1 Hp2]. apply accepts_sequence; auto.
  - apply andb_true_iff in Hp as [Hp1 Hp2]. intros x c.
    rewrite orb_true_iff. split.
    + intros [H | H]; [apply (IH1 Hp1) in H | apply (IH2 Hp2) in H];
        destruct H as (o & s' & E & Ho & Hc); eauto 8.
    + intros (o & s' & E & [Ho | Ho] & Hc);
        [left; apply (IH1 Hp1) | right; apply (IH2 Hp2)]; eauto 8.
  - apply andb_true_iff in Hp as [Hp1 Hp2]. apply Nat.leb_le in Hp2.
    now apply accepts_repeat; auto.
Qed.

Lemma exec_from_anchored (r : regex) n s : exec_from (Seq Bol r) (S n) s = false.
Proof. revert n. induction s as [| ch s IH]; intros n; simpl; auto. Qed.

Lemma exec_from_ext (r1 r2 : regex) n s :
  (forall x c, CompileSubpattern r1 x c = CompileSubpattern r2 x c) ->
  exec_from r1 n s = exec_from r2 n s.
Proof.
  intros H. revert n. induction s as [| ch s IH]; intros n; simpl; rewrite H; [reflexivity |].
  now rewrite IH.
Qed.

(** [^r$] tests whether the whole subject is in the language of [r]. *)
Lemma test_anchored (r : regex) s :
  plain r = true -> test (Seq Bol (Seq r Eol)) s = true <-> lang r s.
Proof.
  intros Hp. unfold test.
  assert (E : exec_from (Seq Bol (Seq r Eol)) 0 s
              = CompileSubpattern r (State 0 s)
                  (fun y => match rest y with EmptyString => true | String _ _ => false end)).
  { destruct s as [| ch s]; simpl; [now rewrite orb_false_r |].
    now rewrite exec_from_anchored, orb_false_r. }
  rewrite E. split.
  - intros H. apply (compile_accepts r Hp) in H as (o & s' & E' & Ho & Hc).
    simpl in *. subst s. destruct s' as [| ch s']; [| discriminate].
    now rewrite append_nil_r.
  - intros Hs. apply (compile_accepts r Hp). exists s, "". simpl.
    now rewrite append_nil_r.
Qed.

End Matcher.


Section DottedQuads.

Lemma in_class_range (lo hi ch : ascii) :
  in_class [(lo, hi)] ch = true <-> nat_of_ascii lo <= nat_of_ascii ch <= nat_of_ascii hi.
Proof.
  unfold in_class, in_range. cbn [existsb fst snd].
  rewrite orb_false_r, andb_true_iff, !Nat.leb_le. tauto.
Qed.

Lemma in_class_zero_one (ch : ascii) :
  in_class [("0", "0"); ("1", "1")]%char ch = true <-> 48 <= nat_of_ascii ch <= 49.
Proof.
  unfold in_class, in_range. cbn [existsb fst snd].
  rewrite orb_false_r, orb_true_iff, !andb_true_iff, !Nat.leb_le.
  change (nat_of_ascii "0") with 48. change (nat_of_ascii "1") with 49. lia.
Qed.

Lemma digit_value_Some ch v :
  digit_value ch = Some v <-> is_digit ch /\ v = nat_of_ascii ch - 48.
Proof.
  unfold digit_value, is_digit.
  destruct (in_class [("0", "9")]%char ch) eqn:E.
  - apply in_class_range in E. change (nat_of_ascii "0") with 48 in E.
    change (nat_of_ascii "9") with 57 in E. split; [intros [= <-]; auto | intros [_ ->]; auto].
  - split; [discriminate |]. intros [H _].
    assert (in_class [("0", "9")]%char ch = true) by now apply in_class_range.
    congruence.
Qed.

Lemma digit_value_is ch : is_digit ch -> digit_value ch = Some (nat_of_ascii ch - 48).
Proof. intros H. now apply digit_value_Some. Qed.

Lemma ascii_by_code (ch : ascii) n : nat_of_ascii ch = n -> ch = ascii_of_nat n.
Proof. intros <-. now rewrite ascii_nat_embedding. Qed.

(** The three shapes of a decimal octet. *)
Lemma decimal_octet_shapes (o : string) :
  decimal_octet o <->
  (exists a, o = String a "" /\ is_digit a)
  \/ (exists a b, o = String a (String b "") /\ is_digit a /\ is_digit b)
  \/ (exists a b c,
        o = String a (String b (String c ""))
        /\ is_digit a /\ is_digit b /\ is_digit c
        /\ 100 * (nat_of_ascii a - 48) + 10 * (nat_of_ascii b - 48) + (nat_of_ascii c - 48)
           <= 255).
Proof.
  unfold decimal_octet. split.
  - intros (v & Ev & Hv).
    destruct o as [| a [| b [| c [| d o]]]]; simpl in Ev; try discriminate.
    + left. exists a. apply digit_value_Some in Ev as [Ha _]. auto.
    + right; left. exists a, b.
      destruct (digit_value a) as [x |] eqn:Ea; [| discriminate].
      destruct (digit_value b) as [y |] eqn:Eb; [| discriminate].
      apply digit_value_Some in Ea as [Ha _], Eb as [Hb _]. auto.
    + right; right. exists a, b, c.
      destruct (digit_value a) as [x |] eqn:Ea; [| discriminate].
      destruct (digit_value b) as [y |] eqn:Eb; [| discriminate].
      destruct (digit_value c) as [z |] eqn:Ec; [| discriminate].
      apply digit_value_Some in Ea as [Ha ->], Eb as [Hb ->], Ec as [Hc ->].
      injection Ev as <-. auto 6.
  - intros [(a & -> & Ha) | [(a & b & -> & Ha & Hb) | (a & b & c & -> & Ha & Hb & Hc & Hv)]];
      simpl; rewrite ?(digit_value_is _ Ha), ?(digit_value_is _ Hb), ?(digit_value_is _ Hc);
      eexists; (split; [reflexivity |]); unfold is_digit in *; lia.
Qed.

Lemma lang_digit o : lang digit o <-> exists ch, o = String ch "" /\ is_digit ch.
Proof.
  unfold digit. simpl. split; intros (ch & -> & H); exists ch; (split; [reflexivity |]);
    apply in_class_range in H || apply in_class_range; exact H.
Qed.

Lemma lang_optional (r : regex) o : lang (Quant r 0 1) o <-> o = "" \/ lang r o.
Proof.
  simpl. split.
  - intros (k & Hk & Hp). destruct k as [| [| k]]; [| | lia]; simpl in Hp.
    + auto.
    + destruct Hp as (o1 & o2 & -> & H1 & ->). right. now rewrite append_nil_r.
  - intros [-> | H].
    + exists 0. split; [lia | reflexivity].
    + exists 1. split; [lia |]. exists o, "". now rewrite append_nil_r.
Qed.

(** The octet pattern stands for the decimal octets. *)
Lemma lang_octet o : lang octet o <-> decimal_octet o.
Proof.
  rewrite decimal_octet_shapes. unfold octet.
  cbn [Disjunction Alternative]. cbn [lang].
  split.
  - intros [H | [H | H]].
    + destruct H as (o1 & o2 & -> & -> & o3 & o4 & -> & -> & ch & -> & Hc).
      apply in_class_range in Hc. change (nat_of_ascii "0") with 48 in Hc.
      change (nat_of_ascii "5") with 53 in Hc.
      right; right. exists "2"%char, "5"%char, ch. unfold is_digit.
      change (nat_of_ascii "2") with 50. change (nat_of_ascii "5") with 53.
      repeat split; lia.
    + destruct H as (o1 & o2 & -> & -> & o3 & o4 & -> & (b & -> & Hb) & Hd).
      apply lang_digit in Hd as (c & -> & Hc).
      apply in_class_range in Hb. change (nat_of_ascii "0") with 48 in Hb.
      change (nat_of_ascii "4") with 52 in Hb.
      right; right. exists "2"%char, b, c. unfold is_digit in *.
      change (nat_of_ascii "2") with 50.
      repeat split; lia.
    + destruct H as (o1 & o2 & -> & H1 & o3 & o4 & -> & Hd & H4).
      apply (lang_optional (Class [("0", "0"); ("1", "1")]%char) o1) in H1.
      apply (lang_optional digit o4) in H4.
      apply lang_digit in Hd as (b & -> & Hb).
      destruct H1 as [-> | (a & -> & Ha)]; destruct H4 as [-> | Hc];
        try apply lang_digit in Hc as (c & -> & Hc); simpl.
      * left. eauto.
      * right; left. exists b, c. auto.
      * apply in_class_zero_one in Ha. right; left. exists a, b. unfold is_digit in *.
        repeat split; lia.
      * apply in_class_zero_one in Ha. right; right. exists a, b, c. unfold is_digit in *.
        repeat split; lia.
  - intros [(a & -> & Ha) | [(a & b & -> & Ha & Hb) | (a & b & c & -> & Ha & Hb & Hc & Hv)]].
    + right; right. exists "", (String a ""). split; [reflexivity |].
      split; [exists 0; split; [lia | reflexivity] |].
      exists (String a ""), "". split; [reflexivity |].
      split; [apply lang_digit; eauto |]. exists 0. split; [lia | reflexivity].
    + right; right. exists "", (String a (String b "")). split; [reflexivity |].
      split; [exists 0; split; [lia | reflexivity] |].
      exists (String a ""), (String b ""). split; [reflexivity |].
      split; [apply lang_digit; eauto |].
      apply (lang_optional digit). right. apply lang_digit. eauto.
    + unfold is_digit in *.
      destruct (Nat.le_gt_cases (nat_of_ascii a) 49) as [Hlow | Hhigh].
      * right; right. exists (String a ""), (String b (String c "")).
        split; [reflexivity |].
        split; [apply (lang_optional (Class [("0", "0"); ("1", "1")]%char)); right;
                exists a; split; [reflexivity | apply in_class_zero_one; lia] |].
        exists (String b ""), (String c ""). split; [reflexivity |].
        split; [apply lang_digit; unfold is_digit; eauto |].
        apply (lang_optional digit). right. apply lang_digit. unfold is_digit. eauto.
      * assert (Ea : a = "2"%char) by (apply (ascii_by_code a 50); lia). subst a.
        change (nat_of_ascii "2") with 50 in Hv.
        destruct (Nat.le_gt_cases (nat_of_ascii b) 52) as [Hb4 | Hb5].
        -- right; left. exists "2", (String b (String c "")). split; [reflexivity |].
           split; [reflexivity |].
           exists (String b ""), (String c ""). split; [reflexivity |].
           split; [exists b; split; [reflexivity |]; apply in_class_range;
                   change (nat_of_ascii "0") with 48; change (nat_of_ascii "4") with 52; lia |].
           apply lang_digit. unfold is_digit. eauto.
        -- assert (Eb : b = "5"%char) by (apply (ascii_by_code b 53); lia). subst b.
           change (nat_of_ascii "5") with 53 in Hv.
           left. exists "2", (String "5" (String c "")). split; [reflexivity |].
           split; [reflexivity |].
           exists "5", (String c ""). split; [reflexivity |]. split; [reflexivity |].
           exists c. split; [reflexivity |]. apply in_class_range.
           change (nat_of_ascii "0") with 48. change (nat_of_ascii "5") with 53. lia.
Qed.

(** The IPv4 pattern accepts the dotted quads and nothing else. *)
Lemma ipv4Regex_dotted_quad (s : string) : test ipv4Regex s = true <-> dotted_quad s.
Proof.
  set (body := Seq (Quant (Seq octet (Char ".")) 3 3) octet).
  assert (E : test ipv4Regex s = test (Seq Bol (Seq body Eol)) s).
  { unfold test. apply exec_from_ext. reflexivity. }
  rewrite E, (test_anchored body s eq_refl).
  unfold body, dotted_quad. cbn [lang]. split.
  - intros (o1 & d & -> & (k & Hk & Hp) & Hd).
    assert (k = 3) as -> by lia. cbn [power] in Hp.
    destruct Hp as (? & ? & -> & (a & ? & -> & Ha & ->)
                      & ? & ? & -> & (b & ? & -> & Hb & ->)
                      & ? & ? & -> & (c & ? & -> & Hc & ->) & ->).
    exists a, b, c, d. rewrite append_nil_r, !append_assoc.
    apply lang_octet in Ha, Hb, Hc, Hd. auto 6.
  - intros (a & b & c & d & -> & Ha & Hb & Hc & Hd).
    apply lang_octet in Ha, Hb, Hc, Hd.
    exists (a ++ "." ++ b ++ "." ++ c ++ "."), d. rewrite !append_assoc.
    split; [reflexivity |]. split; [| exact Hd].
    exists 3. split; [lia |]. cbn [power].
    exists (a ++ "."), (b ++ "." ++ c ++ "."). split; [now rewrite !append_assoc |].
    split; [eauto |].
    exists (b ++ "."), (c ++ "."). split; [now rewrite !append_assoc |].
    split; [eauto |].
    exists (c ++ "."), "". split; [now rewrite append_nil_r |]. split; [eauto | reflexivity].
Qed.

End DottedQuads.

Section ColonHex.

Lemma power_class (ranges : list (ascii * ascii)) k g :
  power (lang (Class ranges)) k g <-> String.length g = k /\ all_in_class ranges g = true.
Proof.
  revert g. induction k as [| k IH]; intros g; simpl.
  - split; [intros ->; auto | intros [E _]; now destruct g].
  - split.
    + intros (o1 & o2 & -> & (ch & -> & Hc) & Hp). apply IH in Hp as [<- Ha].
      simpl. rewrite Hc, Ha. auto.
    + intros [E Ha]. destruct g as [| ch g]; [discriminate |]. simpl in *.
      apply andb_true_iff in Ha as [Hc Ha].
      exists (String ch ""), g. split; [reflexivity |]. split; [eauto |].
      apply IH. split; [lia | exact Ha].
Qed.

Lemma lang_hextet g : lang hextet g <-> hex_group g.
Proof.
  unfold hextet, hexdigit, hex_group. cbn [lang]. split.
  - intros (k & Hk & Hp). apply power_class in Hp as [<- Ha]. auto.
  - intros [Hk Ha]. exists (String.length g). split; [exact Hk |].
    apply power_class. auto.
Qed.

Lemma lang_hextet_colon o : lang hextet_colon o <-> exists g, hex_group g /\ o = g ++ ":".
Proof.
  unfold hextet_colon. cbn [Alternative]. cbn [lang]. split.
  - intros (g & o2 & -> & Hg & ->). apply lang_hextet in Hg. eauto.
  - intros (g & Hg & ->). apply lang_hextet in Hg. eauto.
Qed.

Lemma power_hextet_colon k o :
  power (lang hextet_colon) k o <->
  exists gs, length gs = k /\ Forall hex_group gs /\ o = groups_colon gs.
Proof.
  revert o. induction k as [| k IH]; intros o; cbn [power].
  - split.
    + intros ->. exists []. auto.
    + intros (gs & E & _ & ->). now destruct gs.
  - split.
    + intros (o1 & o2 & -> & H1 & Hp). apply lang_hextet_colon in H1 as (g & Hg & ->).
      apply IH in Hp as (gs & <- & Hgs & ->).
      exists (g :: gs). simpl. rewrite append_assoc. auto.
    + intros (gs & E & Hgs & ->). destruct gs as [| g gs]; [discriminate |].
      apply Forall_cons in Hgs as [Hg Hgs]. simpl in *.
      exists (g ++ ":"), (groups_colon gs). rewrite append_assoc.
      split; [reflexivity |]. split; [apply lang_hextet_colon; eauto |].
      apply IH. exists gs. auto with lia.
Qed.

Lemma lang_groups lo hi o :
  lang (Quant hextet_colon lo hi) o <->
  exists gs, lo <= length gs <= hi /\ Forall hex_group gs /\ o = groups_colon gs.
Proof.
  cbn [lang]. split.
  - intros (k & Hk & Hp). apply power_hextet_colon in Hp as (gs & <- & Hgs & ->). eauto.
  - intros (gs & Hk & Hgs & ->). exists (length gs). split; [exact Hk |].
    apply power_hextet_colon. eauto.
Qed.

Lemma exec_from_Alt (r1 r2 : regex) n s :
  exec_from (Alt r1 r2) n s = exec_from r1 n s || exec_from r2 n s.
Proof.
  revert n. induction s as [| ch s IH]; intros n; simpl.
  - now rewrite !orb_false_r.
  - rewrite IH.
    destruct (CompileSubpattern r1 _ _), (CompileSubpattern r2 _ _),
      (exec_from r1 _ _), (exec_from r2 _ _); reflexivity.
Qed.

(** The IPv6 pattern accepts the four colon-hex shapes and nothing else. *)
Lemma ipv6Regex_colon_hex (s : string) : test ipv6Regex s = true <-> colon_hex s.
Proof.
  set (b1 := Seq (Quant hextet_colon 7 7) hextet).
  set (b2 := Seq (Char ":") (Seq (Char ":") (Seq (Quant hextet_colon 0 6) hextet))).
  set (b3 := Seq (Quant hextet_colon 1 7) (Char ":")).
  set (b4 := Seq (Quant hextet_colon 0 6)
               (Seq (Char ":") (Seq (Char ":") (Seq (Quant hextet_colon 0 5) hextet)))).
  assert (E : test ipv6Regex s
              = test (Seq Bol (Seq b1 Eol)) s || test (Seq Bol (Seq b2 Eol)) s
                || test (Seq Bol (Seq b3 Eol)) s || test (Seq Bol (Seq b4 Eol)) s).
  { unfold test, ipv6Regex. cbn [Disjunction]. rewrite !exec_from_Alt, !orb_assoc.
    f_equal; [f_equal; [f_equal |] |]; apply exec_from_ext; reflexivity. }
  rewrite E, !orb_true_iff.
  rewrite (test_anchored b1 s eq_refl), (test_anchored b2 s eq_refl),
    (test_anchored b3 s eq_refl), (test_anchored b4 s eq_refl).
  unfold colon_hex, b1, b2, b3, b4. split.
  - intros [[[H | H] | H] | H].
    + destruct H as (o & g & -> & Hq & Hg).
      apply lang_groups in Hq as (gs & Hk & Hgs & ->). apply lang_hextet in Hg.
      left. exists gs, g. split; [lia |]. split; [now apply Forall_cons | reflexivity].
    + destruct H as (c1 & ? & -> & Hc1 & c2 & ? & -> & Hc2 & o & g & -> & Hq & Hg).
      cbn [lang] in Hc1, Hc2. subst c1 c2.
      apply lang_groups in Hq as (gs & Hk & Hgs & ->). apply lang_hextet in Hg.
      right; left. exists gs, g. split; [lia |].
      split; [now apply Forall_cons | reflexivity].
    + destruct H as (o & c1 & -> & Hq & Hc1). cbn [lang] in Hc1. subst c1.
      apply lang_groups in Hq as (gs & Hk & Hgs & ->).
      right; right; left. exists gs. split; [lia |]. split; [exact Hgs | reflexivity].
    + destruct H as (o & ? & -> & Hq & c1 & ? & -> & Hc1 & c2 & ? & -> & Hc2
                     & o' & g & -> & Hq' & Hg).
      cbn [lang] in Hc1, Hc2. subst c1 c2.
      apply lang_groups in Hq as (gs & Hk & Hgs & ->).
      apply lang_groups in Hq' as (gs' & Hk' & Hgs' & ->). apply lang_hextet in Hg.
      right; right; right. exists gs, gs', g. split; [lia |]. split; [lia |].
      split; [| reflexivity]. apply Forall_cons. split; [exact Hg |].
      apply Forall_app. auto.
  - intros [H | [H | [H | H]]].
    + destruct H as (gs & g & Hk & Hall & ->). apply Forall_cons in Hall as [Hg Hgs].
      left; left; left. exists (groups_colon gs), g. split; [reflexivity |].
      split; [apply lang_groups; exists gs; auto with lia | now apply lang_hextet].
    + destruct H as (gs & g & Hk & Hall & ->). apply Forall_cons in Hall as [Hg Hgs].
      left; left; right. exists ":", (":" ++ groups_colon gs ++ g).
      split; [reflexivity |]. split; [reflexivity |].
      exists ":", (groups_colon gs ++ g). split; [reflexivity |]. split; [reflexivity |].
      exists (groups_colon gs), g. split; [reflexivity |].
      split; [apply lang_groups; exists gs; auto with lia | now apply lang_hextet].
    + destruct H as (gs & Hk & Hgs & ->).
      left; right. exists (groups_colon gs), ":". split; [reflexivity |].
      split; [apply lang_groups; exists gs; auto | reflexivity].
    + destruct H as (gs & gs' & g & Hk & Hk' & Hall & ->).
      apply Forall_cons in Hall as [Hg Hall]. apply Forall_app in Hall as [Hgs Hgs'].
      right. exists (groups_colon gs), ("::" ++ groups_colon gs' ++ g).
      split; [reflexivity |].
      split; [apply lang_groups; exists gs; auto with lia |].
      exists ":", (":" ++ groups_colon gs' ++ g). split; [reflexivity |].
      split; [reflexivity |].
      exists ":", (groups_colon gs' ++ g). split; [reflexivity |]. split; [reflexivity |].
      exists (groups_colon gs'), g. split; [reflexivity |].
      split; [apply lang_groups; exists gs'; auto with lia | now apply lang_hextet].
Qed.

(** What [isValidIP] accepts. *)
Lemma isValidIP_accepts (s : string) : isValidIP s = true <-> dotted_quad s \/ colon_hex s.
Proof.
  unfold isValidIP. now rewrite orb_true_iff, ipv4Regex_dotted_quad, ipv6Regex_colon_hex.
Qed.

End ColonHex.


(** C1, on the code.  [isValidIP] accepts dotted quads and the full and
    the [::]-first and [::]-last forms of IPv6, and rejects an octet over
    255; but its fourth IPv6 alternative asks for three colons where the
    notation has two, so the addresses ["1::2"] and ["fe80::1"] are
    rejected and the strings ["1:::2"] and ["2001:db8:::1"] are accepted;
    no alternative matches ["::"]. *)
Lemma isValidIP_compressed_forms :
  isValidIP "8.8.8.8" = true
  /\ isValidIP "256.1.1.1" = false
  /\ isValidIP "1:2:3:4:5:6:7:8" = true
  /\ isValidIP "::1" = true
  /\ isValidIP "2001:db8::" = true
  /\ isValidIP "::" = false
  /\ isValidIP "1::2" = false
  /\ isValidIP "fe80::1" = false
  /\ isValidIP "1:::2" = true
  /\ isValidIP "2001:db8:::1" = true.
Proof. repeat split; vm_compute; reflexivity. Qed.

(* ===================================================================== *)
(** ** The upstream client *)
(* ===================================================================== *)

#[local] Arguments ok : simpl never.
#[local] Arguments Integer_toString : simpl never.
#[local] Arguments request_url : simpl never.


(** C5, as amended.  [fetchIPData] requests one URL and reads no clock.
    It throws exactly when [fetch] itself rejects, or the status is outside
    200-299, or the body does not decode, or the decoded payload is [null],
    or the payload's [status] is ["fail"].  A status outside the range
    gives ["API error: <status>"]; a failing payload gives its [message]
    when that is a non-empty string and ["Invalid IP address"] when the
    message is absent or falsy (the empty string included); a message that
    is truthy without being a string is carried converted to a string
    ([true] gives ["true"]), and when that conversion throws, its error is
    the one thrown.  What it returns is the decoded body, unchanged. *)
Theorem fetchIPData_completion {host : Host} (w : World) ip fields t answer r :
  upstream w (length (requests t)) (request_url ip fields) = answer ->
  fst (run w (fetchIPData ip fields) t) = r ->
  snd (run w (fetchIPData ip fields) t) = log_request (request_url ip fields) t
  /\ ((exists e, r = Throw e) <->
      (exists e, answer = Throw e)
      \/ (exists response, answer = Return response
          /\ (ok response = false
              \/ (exists e, body response = Throw e)
              \/ (exists data, body response = Return data
                  /\ (nullish data = true \/ status_fail data = true)))))
  /\ (forall response, answer = Return response -> ok response = false ->
      r = Throw (Error ("API error: " ++ Integer_toString (status response))))
  /\ (forall response data s,
      answer = Return response -> ok response = true -> body response = Return data ->
      status_fail data = true -> field data "message" = Some (JStr s) -> s <> "" ->
      r = Throw (Error s))
  /\ (forall response data,
      answer = Return response -> ok response = true -> body response = Return data ->
      status_fail data = true -> ToBoolean (property data "message") = false ->
      r = Throw (Error "Invalid IP address"))
  /\ (forall response data,
      answer = Return response -> ok response = true -> body response = Return data ->
      status_fail data = true -> ToBoolean (property data "message") = true ->
      (forall s, ToString (property data "message") = Return s -> r = Throw (Error s))
      /\ (forall e, ToString (property data "message") = Throw e -> r = Throw e))
  /\ (forall data, r = Return data ->
      exists response, answer = Return response /\ ok response = true
                       /\ body response = Return data).
Proof.
  intros <- <-. rewrite run_fetchIPData.
  set (answer := upstream w _ _). set (t1 := log_request _ t).
  split; [apply run_received |].
  split; [| split; [| split; [| split; [| split]]]].
  - (* throws exactly on a failure *)
    unfold received, status_fail.
    destruct answer as [response | e]; simpl; [| split; eauto].
    destruct (ok response) eqn:Eok; simpl;
      [| split; [intros _; right; exists response; auto | eauto]].
    destruct (body response) as [d | e] eqn:Ebody; simpl;
      [| split; [intros _; right; exists response; eauto 6 | eauto]].
    destruct (nullish d) eqn:En.
    { assert (exists e, Get d "status" = Throw e) as [e ->]
        by (destruct d; try discriminate; simpl; eauto).
      simpl. split; [intros _; right; exists response; eauto 8 | eauto]. }
    rewrite (Get_property d "status" En); simpl.
    destruct (strict_equals_string (property d "status") "fail") eqn:Est; simpl.
    + rewrite (Get_property d "message" En); simpl.
      split; [intros _; right; exists response; eauto 8 |].
      intros _. destruct (new_Error _); simpl; eauto.
    + split.
      * intros [e [=]].
      * intros [[e [=]] | (resp & [= <-] & [E | [[e E] | (d' & E & [E' | E'])]])];
          congruence.
  - (* a status outside the success range *)
    intros response E Eok. unfold received. rewrite E; simpl. now rewrite Eok.
  - (* the provider's message *)
    intros response d s E Eok Ebody Efail Emsg Hs. unfold received, status_fail in *.
    rewrite E; simpl. rewrite Eok; simpl. rewrite Ebody; simpl.
    assert (En : nullish d = false) by (destruct d; try discriminate; reflexivity).
    rewrite (Get_property d "status" En); simpl. rewrite Efail; simpl.
    rewrite (Get_property d "message" En); simpl.
    unfold property. rewrite Emsg. unfold or_else; simpl.
    destruct (String.eqb_spec s ""); [contradiction | reflexivity].
  - (* the generic message *)
    intros response d E Eok Ebody Efail Emsg. unfold received, status_fail in *.
    rewrite E; simpl. rewrite Eok; simpl. rewrite Ebody; simpl.
    assert (En : nullish d = false).
    { destruct d; try reflexivity; discriminate. }
    rewrite (Get_property d "status" En); simpl. rewrite Efail; simpl.
    rewrite (Get_property d "message" En); simpl.
    unfold or_else. rewrite Emsg. reflexivity.
  - (* a truthy message, converted *)
    intros response d E Eok Ebody Efail Emsg. unfold received, status_fail in *.
    rewrite E; simpl. rewrite Eok; simpl. rewrite Ebody; simpl.
    assert (En : nullish d = false).
    { destruct d; try reflexivity; discriminate. }
    rewrite (Get_property d "status" En); simpl. rewrite Efail; simpl.
    rewrite (Get_property d "message" En); simpl.
    unfold or_else. rewrite Emsg. unfold new_Error.
    split; [intros s Es | intros e Ee]; [rewrite Es | rewrite Ee]; reflexivity.
  - (* the record, unchanged *)
    intros d E. destruct (received_Return w answer t1 d E) as (response & ? & ? & ? & _).
    eauto.
Qed.

(** Where C5 as stated fails.  In [world_html] the response has status
    200 and a body that is not JSON: [fetchIPData] throws the decoder's
    error, although the status is in the success range and there is no
    decoded payload whose status is ["fail"].  In [world_mute] the payload
    reports a failure with the empty string as its message: the error
    carries the generic message, not the provider's. *)
Lemma fetchIPData_other_failures :
  (upstream world_html 0 (request_url "8.8.8.8" None)
     = Return (mkResponse 200 (Throw not_json))
   /\ (exists e, fst (run world_html (fetchIPData (host := node) "8.8.8.8" None) idle)
                 = Throw e)
   /\ ~ (ok (mkResponse 200 (Throw not_json)) = false
         \/ exists data, body (mkResponse 200 (Throw not_json)) = Return data
                         /\ status_fail data = true))
  /\ (upstream world_mute 0 (request_url "8.8.8.8" None)
        = Return (mkResponse 200 (Return fail_without_text))
      /\ status_fail fail_without_text = true
      /\ field fail_without_text "message" = Some (JStr "")
      /\ fst (run world_mute (fetchIPData (host := node) "8.8.8.8" None) idle)
         = Throw (Error "Invalid IP address")
      /\ Error "Invalid IP address" <> Error "").
Proof.
  split; [split; [reflexivity | split] | repeat split; discriminate].
  - exists not_json. reflexivity.
  - intros [H | (data & H & _)]; discriminate.
Qed.

Lemma fetchIPData_completion_witness :
  upstream world_mixed 2 (request_url "10.0.0.1" None)
    = Return (mkResponse 200 (Return reserved_range))
  /\ fst (run world_mixed (fetchIPData (host := node) "10.0.0.1" None)
            (mkTrace ["u0"; "u1"] 0))
     = Throw (Error "reserved range")
  /\ fst (run (answers
                 (Return
                    (mkResponse 200
                       (Return (JObj [("status", JStr "fail"); ("message", JBool true)])))))
            (fetchIPData (host := node) "10.0.0.1" None) idle)
     = Throw (Error "true").
Proof.
  split; [reflexivity |]. split.
  - destruct (fetchIPData_completion (host := node) world_mixed "10.0.0.1" None
                (mkTrace ["u0"; "u1"] 0) _ _ eq_refl eq_refl)
      as (_ & _ & _ & Hmessage & _).
    apply (Hmessage (mkResponse 200 (Return reserved_range)) reserved_range "reserved range");
      try reflexivity.
    discriminate.
  - destruct (fetchIPData_completion (host := node)
                (answers
                   (Return
                      (mkResponse 200
                         (Return (JObj [("status", JStr "fail"); ("message", JBool true)])))))
                "10.0.0.1" None idle _ _ eq_refl eq_refl)
      as (_ & _ & _ & _ & _ & Htruthy & _).
    destruct (Htruthy
                (mkResponse 200
                   (Return (JObj [("status", JStr "fail"); ("message", JBool true)])))
                (JObj [("status", JStr "fail"); ("message", JBool true)])
                eq_refl eq_refl eq_refl eq_refl eq_refl) as [Hstring _].
    apply Hstring. reflexivity.
Defined.


(* ===================================================================== *)
(** ** The single-IP entrypoints and the overview *)
(* ===================================================================== *)


(** C6.  When the address fails [isValidIP], each of the four single-IP
    handlers throws the validation error and leaves the trace as it was:
    no request was made, the clock was not read, and there is no output. *)
Theorem invalid_ip_rejected_before_any_call {host : Host} (w : World) ip t :
  isValidIP ip = false ->
  run w (lookup_handler ip) t = (Throw (Error "Invalid IP address format"), t)
  /\ run w (geolocate_handler ip) t = (Throw (Error "Invalid IP address format"), t)
  /\ run w (timezone_handler ip) t = (Throw (Error "Invalid IP address format"), t)
  /\ run w (isp_info_handler ip) t = (Throw (Error "Invalid IP address format"), t).
Proof.
  intros E.
  unfold lookup_handler, geolocate_handler, timezone_handler, isp_info_handler.
  rewrite E. repeat split.
Qed.

Lemma invalid_ip_rejected_before_any_call_witness :
  isValidIP "256.1.1.1" = false
  /\ run world_up (lookup_handler (host := node) "256.1.1.1") idle
     = (Throw (Error "Invalid IP address format"), idle).
Proof.
  split; [reflexivity |].
  apply (invalid_ip_rejected_before_any_call (host := node) world_up "256.1.1.1" idle).
  reflexivity.
Defined.

Lemma flag_present (data : JSValue) k b :
  field data k = Some (JBool b) -> or_else (property data k) (JBool false) = JBool b.
Proof. unfold property, or_else. intros ->. now destruct b. Qed.

Lemma flag_absent (data : JSValue) k :
  field data k = None -> or_else (property data k) (JBool false) = JBool false.
Proof. unfold property, or_else. now intros ->. Qed.

(** C8.  When the lookup of the isp-info handler returns [data], the
    output's [flags] holds [mobile], [proxy] and [hosting]; each is the
    boolean [data] has under that name, and [false] when [data] has no such
    field. *)
Theorem isp_info_flags {host : Host} (w : World) ip t data t1 :
  isValidIP ip = true ->
  run w (fetchIPData ip (Some "status,message,query,isp,org,as,asname,mobile,proxy,hosting")) t
    = (Return data, t1) ->
  exists mobile proxy hosting,
    run w (isp_info_handler ip) t
    = (Return
         (JObj
            [ ("output",
               JObj
                 [ ("ip", property data "query");
                   ("isp", property data "isp");
                   ("organization", property data "org");
                   ("asn", property data "as");
                   ("asName", property data "asname");
                   ("flags",
                    JObj [("mobile", mobile); ("proxy", proxy); ("hosting", hosting)]);
                   ("fetchedAt", JStr (toISOString (clock w (ticks t1)))) ]) ]),
       tick t1)
    /\ forall k v,
         In (k, v) [("mobile", mobile); ("proxy", proxy); ("hosting", hosting)] ->
         (forall b, field data k = Some (JBool b) -> v = JBool b)
         /\ (field data k = None -> v = JBool false).
Proof.
  intros Evalid Efetch.
  destruct (fetchIPData_Return _ _ _ _ _ _ Efetch) as [En _].
  exists (or_else (property data "mobile") (JBool false)),
         (or_else (property data "proxy") (JBool false)),
         (or_else (property data "hosting") (JBool false)).
  split.
  - unfold isp_info_handler. rewrite Evalid; simpl negb; cbv iota.
    rewrite run_bind, Efetch. unfold flag.
    rewrite !(get_property data _ En). reflexivity.
  - intros k v [[= <- <-] | [[= <- <-] | [[= <- <-] | []]]];
      (split; [intros b; apply flag_present | apply flag_absent]).
Qed.

Lemma isp_info_flags_witness :
  exists t1,
    run world_up
      (fetchIPData (host := node) "8.8.8.8"
         (Some "status,message,query,isp,org,as,asname,mobile,proxy,hosting")) idle
    = (Return google_dns, t1)
    /\ exists out, run world_up (isp_info_handler (host := node) "8.8.8.8") idle = (Return out, tick t1)
       /\ property (property (property out "output") "flags") "proxy" = JBool true
       /\ property (property (property out "output") "flags") "mobile" = JBool false.
Proof.
  eexists. split; [reflexivity |].
  destruct (isp_info_flags (host := node) world_up "8.8.8.8" idle google_dns _
              eq_refl eq_refl) as (mobile & proxy & hosting & Hrun & Hflags).
  eexists. split; [exact Hrun |].
  destruct (Hflags "proxy" proxy) as [Hp _]; [simpl; auto |].
  destruct (Hflags "mobile" mobile) as [_ Hm]; [simpl; auto |].
  rewrite (Hp true eq_refl), (Hm eq_refl). split; reflexivity.
Defined.

(** C9.  The overview entrypoint costs nothing, and when its lookup of
    8.8.8.8 returns [sample], its output holds a [sampleLookup] made of the
    record's [query], [country], [city] and [isp], and a catalog of five
    endpoints. *)
Theorem overview_free_sample {host : Host} (w : World) t sample t1 :
  run w (fetchIPData "8.8.8.8" None) t = (Return sample, t1) ->
  price_amount overview = 0%Z
  /\ run w overview_handler t
     = (Return
          (JObj
             [ ("output",
                JObj
                  [ ("service", JStr "IP Intelligence Agent");
                    ("description",
                     JStr "Real-time IP geolocation, ISP info, and timezone data");
                    ("dataSource", JStr "ip-api.com (live)");
                    ("sampleLookup",
                     JObj
                       [ ("ip", property sample "query");
                         ("country", property sample "country");
                         ("city", property sample "city");
                         ("isp", property sample "isp") ]);
                    ("endpoints",
                     JObj
                       [ ("lookup", JStr "Single IP lookup - $0.001");
                         ("bulk", JStr "Bulk IP lookup (up to 10) - $0.003");
                         ("geolocate", JStr "Detailed geolocation - $0.002");
                         ("timezone", JStr "Timezone info - $0.001");
                         ("isp-info", JStr "ISP/Organization details - $0.002") ]);
                    ("fetchedAt", JStr (toISOString (clock w (ticks t1)))) ]) ]),
        tick t1).
Proof.
  intros Efetch. split; [reflexivity |].
  destruct (fetchIPData_Return _ _ _ _ _ _ Efetch) as [En _].
  unfold overview_handler. rewrite run_bind, Efetch.
  rewrite !(get_property sample _ En). reflexivity.
Qed.

Lemma overview_free_sample_witness :
  run world_up (fetchIPData (host := node) "8.8.8.8" None) idle
    = (Return google_dns, log_request (request_url "8.8.8.8" None) idle)
  /\ exists out t', run world_up (overview_handler (host := node)) idle = (Return out, t')
       /\ property (property out "output") "sampleLookup"
          = JObj [ ("ip", JStr "8.8.8.8"); ("country", JStr "United States");
                   ("city", JStr "Ashburn"); ("isp", JStr "Google LLC") ].
Proof.
  split; [reflexivity |].
  destruct (overview_free_sample (host := node) world_up idle google_dns _ eq_refl)
    as [_ Hrun].
  eexists; eexists. split; [exact Hrun | reflexivity].
Defined.

(* ===================================================================== *)
(** ** The event loop settles to the sequential run *)
(* ===================================================================== *)

Section Settling.

Context {A : Type} (w : World).
Implicit Types (m : Async A) (task : Task A) (t : Trace) (r : Result A).

Lemma settle_run m r t : settle m = Some r -> run w m t = (r, t).
Proof.
  induction m as [r' | url k IH | response k IH | k IH]; simpl; intros E;
    try discriminate; [congruence | auto].
Qed.

Lemma start_settle m r t :
  settle m = Some r ->
  exists task, start w m t = (task, t) /\ task_settle w task = Some r
               /\ task_awaits w task = reads m.
Proof.
  destruct m as [r' | url k | response k | k]; simpl; intros E; try discriminate.
  - exists (Finished r'). auto.
  - exists (Reading response k). auto.
Qed.

Lemma resume_settle task r t :
  task_settle w task = Some r ->
  exists task', resume w task t = (task', t) /\ task_settle w task' = Some r
                /\ task_awaits w task' = Nat.pred (task_awaits w task).
Proof.
  destruct task as [r' | req url k | response k]; simpl; intros E.
  - exists (Finished r'). auto.
  - apply start_settle with (t := t) in E. exact E.
  - apply start_settle with (t := t) in E. exact E.
Qed.

Lemma task_settled task r :
  task_settle w task = Some r -> task_awaits w task = 0 -> task = Finished r.
Proof. destruct task; simpl; intros E E0; try discriminate. congruence. Qed.

Lemma start_one_request n m t :
  one_request n m ->
  exists task, start w m t = (task, snd (run w m t))
               /\ task_settle w task = Some (fst (run w m t))
               /\ task_awaits w task <= n.
Proof.
  destruct m as [r' | url k | response k | k]; simpl.
  - intros [_ Hn]. exists (Finished r'). simpl. auto with lia.
  - intros H. destruct (H (upstream w (length (requests t)) url)) as [[r E] Hn].
    rewrite (settle_run _ _ _ E). simpl. eauto.
  - intros [[r E] Hn]. rewrite (settle_run _ _ _ E). simpl. eauto.
  - intros [[r E] _]. discriminate.
Qed.

Lemma spawn_run_all n (ms : list (Async A)) t :
  Forall (one_request n) ms ->
  exists tasks, spawn w ms t = (tasks, snd (run_all w ms t))
                /\ heading w tasks (fst (run_all w ms t))
                /\ Forall (fun task => task_awaits w task <= n) tasks.
Proof.
  revert t. induction ms as [| m ms IH]; intros t H; simpl.
  - exists []. split; [reflexivity | split; constructor].
  - inversion H as [| ? ? Hm Hms]; subst.
    destruct (start_one_request n m t Hm) as (task & Es & Et & Hn). rewrite Es.
    destruct (run w m t) as [r t1]; simpl in *.
    destruct (IH t1 Hms) as (tasks & Esp & Hh & Hb). rewrite Esp.
    destruct (run_all w ms t1) as [rs t2]; simpl in *.
    exists (task :: tasks). split; [reflexivity | split; now constructor].
Qed.

Lemma heading_values tasks (vs vs' : list A) :
  heading w tasks (Return <$> vs) -> all_values tasks = Some vs' -> vs' = vs.
Proof.
  revert vs vs'. induction tasks as [| task tasks IH]; intros vs vs' H E.
  - apply Forall2_nil_inv_l in H. destruct vs; [| discriminate]. simpl in E. congruence.
  - destruct vs as [| v vs]; [inversion H |].
    apply Forall2_cons in H as [Hv H]. simpl in E.
    destruct (fulfilled task) as [a |] eqn:Ea; [| discriminate].
    destruct (all_values tasks) as [vs0 |] eqn:E0; [| discriminate].
    injection E as <-. rewrite (IH vs vs0 H eq_refl).
    destruct task as [[a' | e] | |]; try discriminate.
    simpl in Ea, Hv. congruence.
Qed.

Lemma heading_settled tasks (vs : list A) :
  heading w tasks (Return <$> vs) ->
  (forall i task, tasks !! i = Some task -> task_awaits w task = 0) ->
  all_values tasks = Some vs.
Proof.
  revert vs. induction tasks as [| task tasks IH]; intros vs H H0.
  - apply Forall2_nil_inv_l in H. destruct vs; [reflexivity | discriminate].
  - destruct vs as [| v vs]; [inversion H |].
    apply Forall2_cons in H as [Hv H]. simpl.
    rewrite (task_settled task _ Hv (H0 0 task eq_refl)). simpl.
    rewrite (IH vs H); [reflexivity |].
    intros i task' E. apply (H0 (S i)). exact E.
Qed.

Lemma heading_not_rejected tasks (vs : list A) :
  heading w tasks (Return <$> vs) -> first_rejected tasks = None.
Proof.
  revert vs. induction tasks as [| task tasks IH]; intros vs H; [reflexivity |].
  destruct vs as [| v vs]; [inversion H |].
  apply Forall2_cons in H as [Hv H]. simpl.
  destruct task as [[a | e] | |]; simpl in *; try discriminate; eauto.
Qed.

Lemma all_values_fulfilled tasks (vs : list A) i task :
  all_values tasks = Some vs -> tasks !! i = Some task ->
  exists a, task = Finished (Return a).
Proof.
  revert vs i. induction tasks as [| task0 tasks IH]; intros vs i E Ei; [discriminate |].
  simpl in E.
  destruct (fulfilled task0) as [a |] eqn:Ea; [| discriminate].
  destruct (all_values tasks) as [vs0 |] eqn:E0; [| discriminate].
  destruct i as [| i]; simpl in Ei.
  - injection Ei as <-. destruct task0 as [[a' | e] | |]; try discriminate. eauto.
  - eapply IH; eauto.
Qed.

End Settling.

Section EventLoop.

Context {A B : Type} (w : World) (after : Result (list A) -> Async B).
Context (vs : list A) (t1 : Trace).
Implicit Types (l : Loop A B) (task : Task A) (schedule : list nat).

#[local] Abbreviation steady := (steady w after vs t1).

Lemma wake_steady (ts : list (Task A)) :
  heading w ts (Return <$> vs) ->
  steady (wake w after (Return <$> all_values ts) (mkLoop ts t1 None)).
Proof.
  intros H. unfold wake; simpl.
  destruct (all_values ts) as [vs' |] eqn:E; simpl.
  - pose proof (heading_values w ts vs vs' H E) as ->.
    destruct (run w (after (Return vs)) t1) as [res t'] eqn:Er.
    split; simpl; [exact H | right; rewrite Er; auto].
  - split; simpl; [exact H | left; auto].
Qed.

Lemma tasks_wake joined l : tasks (wake w after joined l) = tasks l.
Proof.
  unfold wake. destruct (completion l); [reflexivity |].
  destruct joined as [r |]; [| reflexivity].
  now destruct (run w (after r) (trace l)).
Qed.

Lemma enter_steady n (ms : list (Async A)) t :
  Forall (one_request n) ms ->
  fst (run_all w ms t) = Return <$> vs ->
  snd (run_all w ms t) = t1 ->
  steady (enter w ms after t)
  /\ Forall (fun task => task_awaits w task <= n) (tasks (enter w ms after t)).
Proof.
  intros Hms Evs Et. unfold enter.
  destruct (spawn_run_all w n ms t Hms) as (ts & Esp & Hh & Hb).
  rewrite Esp, Et. rewrite Evs in Hh. unfold joined_at_start.
  rewrite (heading_not_rejected w ts vs Hh). rewrite tasks_wake.
  split; [now apply wake_steady | exact Hb].
Qed.

Lemma joined_after_heading (ts : list (Task A)) i task v :
  ts !! i = Some task -> task_settle w task = Some (Return v) ->
  joined_after task ts = Return <$> all_values ts.
Proof.
  intros Ei Hs. destruct task as [[a | e] | req url k | response k]; simpl in *;
    try discriminate; try reflexivity.
  - destruct (all_values ts) as [vs' |] eqn:E; [| reflexivity].
    destruct (all_values_fulfilled ts vs' i _ E Ei) as [a [=]].
  - destruct (all_values ts) as [vs' |] eqn:E; [| reflexivity].
    destruct (all_values_fulfilled ts vs' i _ E Ei) as [a [=]].
Qed.

Lemma deliver_pending l i task :
  tasks l !! i = Some task -> (forall r, task <> Finished r) ->
  deliver w after l i
  = let (task', t') := resume w task (trace l) in
    let ts := <[i := task']> (tasks l) in
    wake w after (joined_after task' ts) (mkLoop ts t' (completion l)).
Proof.
  intros Ei Hp. unfold deliver. rewrite Ei.
  destruct task as [r | |]; [destruct (Hp r eq_refl) | reflexivity | reflexivity].
Qed.

Lemma deliver_steady l i :
  steady l ->
  steady (deliver w after l i)
  /\ forall j task, tasks l !! j = Some task ->
       exists task', tasks (deliver w after l i) !! j = Some task'
                     /\ task_awaits w task'
                        = if decide (j = i) then Nat.pred (task_awaits w task)
                          else task_awaits w task.
Proof.
  intros Hl. pose proof Hl as [Hh Hc].
  destruct (tasks l !! i) as [task |] eqn:Ei.
  2:{ unfold deliver. rewrite Ei. split; [exact Hl |].
      intros j task Ej. exists task. split; [exact Ej |].
      destruct (decide (j = i)) as [-> |]; congruence. }
  destruct task as [r | req url k | response k] eqn:Etask.
  { unfold deliver. rewrite Ei. split; [exact Hl |].
    intros j task0 Ej. exists task0. split; [exact Ej |].
    destruct (decide (j = i)) as [-> |]; [| reflexivity].
    rewrite Ei in Ej. injection Ej as <-. reflexivity. }
  all: rewrite <- Etask in Ei.
  all: assert (Hp : forall r, task <> Finished r) by (subst task; discriminate).
  all: clear Etask.
  all: rewrite (deliver_pending l i task Ei Hp).
  all: destruct Hc as [(Ec & Et & En) | (_ & _ & Ev)];
    [| destruct (all_values_fulfilled (tasks l) vs i task Ev Ei) as [a Ha];
       destruct (Hp _ Ha)].
  all: destruct (Forall2_lookup_l _ _ _ _ _ Hh Ei) as (r & Er & Hs).
  all: rewrite list_lookup_fmap in Er.
  all: destruct (vs !! i) as [v |] eqn:Ev; [| discriminate].
  all: injection Er as <-.
  all: destruct (resume_settle w task _ (trace l) Hs) as (task' & Eres & Hs' & Haw).
  all: rewrite Eres; cbv zeta.
  all: assert (Hi : i < length (tasks l)) by (eapply lookup_lt_Some; eauto).
  all: assert (Ei' : <[i := task']> (tasks l) !! i = Some task')
    by (now apply list_lookup_insert_eq).
  all: rewrite (joined_after_heading _ i task' v Ei' Hs'), Ec, Et.
  all: assert (Hh' : heading w (<[i := task']> (tasks l)) (Return <$> vs)).
  all: try (rewrite <- (list_insert_id (Return <$> vs) i (Return v))
              by (now rewrite list_lookup_fmap, Ev);
            apply Forall2_insert; assumption).
  all: split; [now apply wake_steady |].
  all: intros j task0 Ej; rewrite tasks_wake; simpl.
  all: destruct (decide (j = i)) as [-> |];
    [ exists task'; split; [exact Ei' | congruence]
    | exists task0; split; [now rewrite list_lookup_insert_ne | reflexivity] ].
Qed.

Lemma event_loop_steady schedule l :
  steady l ->
  steady (event_loop w after l schedule)
  /\ forall j task, tasks l !! j = Some task ->
       exists task', tasks (event_loop w after l schedule) !! j = Some task'
                     /\ task_awaits w task'
                        = task_awaits w task - count_occ Nat.eq_dec schedule j.
Proof.
  revert l. induction schedule as [| i schedule IH]; intros l Hl; simpl.
  - split; [exact Hl |]. intros j task Ej. exists task. split; [exact Ej | lia].
  - destruct (deliver_steady l i Hl) as [Hl' Hstep].
    destruct (IH _ Hl') as [Hfin Hrest].
    split; [exact Hfin |].
    intros j task Ej.
    destruct (Hstep j task Ej) as (task1 & Ej1 & Ha1).
    destruct (Hrest j task1 Ej1) as (task2 & Ej2 & Ha2).
    exists task2. split; [exact Ej2 |].
    rewrite Ha2, Ha1. simpl.
    destruct (Nat.eq_dec i j) as [E | E]; destruct (decide (j = i)) as [E' | E'];
      try congruence; lia.
Qed.

Lemma tasks_enter (ms : list (Async A)) t :
  tasks (enter w ms after t) = fst (spawn w ms t).
Proof. unfold enter. destruct (spawn w ms t) as [ts t']. now rewrite tasks_wake. Qed.

(** Once every promise the calls wait for has been delivered, the handler
    has completed with what [after] returns on the values of the
    sequential run. *)
Lemma event_loop_settles n (ms : list (Async A)) t schedule :
  Forall (one_request n) ms ->
  fst (run_all w ms t) = Return <$> vs ->
  snd (run_all w ms t) = t1 ->
  (forall i task, fst (spawn w ms t) !! i = Some task ->
                  task_awaits w task <= count_occ Nat.eq_dec schedule i) ->
  event_loop w after (enter w ms after t) schedule
  = mkLoop ((fun v => Finished (Return v)) <$> vs)
      (snd (run w (after (Return vs)) t1))
      (Some (fst (run w (after (Return vs)) t1))).
Proof.
  intros Hms Evs Et Hfair.
  destruct (enter_steady n ms t Hms Evs Et) as [Hl _].
  destruct (event_loop_steady schedule _ Hl) as [[Hh Hc] Haw].
  set (l := event_loop w after (enter w ms after t) schedule) in *.
  assert (H0 : forall i task, tasks l !! i = Some task -> task_awaits w task = 0).
  { intros i task Ei.
    assert (Hi : i < length (tasks (enter w ms after t))).
    { rewrite (Forall2_length _ _ _ (proj1 Hl)).
      rewrite <- (Forall2_length _ _ _ Hh). eapply lookup_lt_Some; eauto. }
    destruct (lookup_lt_is_Some_2 _ _ Hi) as [task0 E0].
    destruct (Haw i task0 E0) as (task' & E' & Ha).
    rewrite Ei in E'. injection E' as <-.
    rewrite tasks_enter in E0. specialize (Hfair i task0 E0). lia. }
  pose proof (heading_settled w _ vs Hh H0) as Eall.
  destruct Hc as [(_ & _ & En) | (Ec & Etr & _)]; [congruence |].
  assert (Ets : tasks l = (fun v => Finished (Return v)) <$> vs).
  { apply list_eq. intros i. rewrite list_lookup_fmap.
    destruct (tasks l !! i) as [task |] eqn:Ei.
    - destruct (Forall2_lookup_l _ _ _ _ _ Hh Ei) as (r & Er & Hs).
      rewrite list_lookup_fmap in Er.
      destruct (vs !! i) as [v |]; [| discriminate]. injection Er as <-.
      simpl. f_equal. apply (task_settled w); eauto.
    - apply lookup_ge_None_1 in Ei.
      rewrite (Forall2_length _ _ _ Hh), length_fmap in Ei.
      now rewrite (lookup_ge_None_2 vs i Ei). }
  destruct l as [ts tr c]. simpl in *. congruence.
Qed.

(** Whatever was delivered so far, the requests are those made when the
    calls started. *)
Lemma event_loop_requests n (ms : list (Async A)) t schedule :
  Forall (one_request n) ms ->
  fst (run_all w ms t) = Return <$> vs ->
  snd (run_all w ms t) = t1 ->
  (forall t', requests (snd (run w (after (Return vs)) t')) = requests t') ->
  requests (trace (event_loop w after (enter w ms after t) schedule)) = requests t1.
Proof.
  intros Hms Evs Et Hafter.
  destruct (enter_steady n ms t Hms Evs Et) as [Hl _].
  destruct (event_loop_steady schedule _ Hl) as [[_ Hc] _].
  destruct Hc as [(_ & -> & _) | (_ & -> & _)]; [reflexivity | apply Hafter].
Qed.

End EventLoop.

(* ===================================================================== *)
(** ** The bulk handler *)
(* ===================================================================== *)

Section Bulk.

Context {engine : Host} (w : World).
Implicit Types (t : Trace) (ip : string) (ips : list string) (data : JSValue).

Lemma run_bulk_callback_invalid ip t :
  isValidIP ip = false ->
  run w (bulk_callback ip) t = (Return (error_outcome ip "Invalid IP format"), t).
Proof. intros E. unfold bulk_callback. now rewrite E. Qed.

Lemma run_bulk_callback_valid ip t :
  isValidIP ip = true ->
  run w (bulk_callback ip) t
  = (Return match fst (run w (fetchIPData ip None) t) with
            | Return data => success_outcome data
            | Throw e => error_outcome ip (message e)
            end,
     log_request (request_url ip None) t).
Proof.
  intros E. unfold bulk_callback. rewrite E; simpl negb; cbv iota.
  rewrite run_try_catch, run_bind.
  pose proof (run_received w (upstream w (length (requests t)) (request_url ip None))
                (log_request (request_url ip None) t)) as Etr.
  rewrite <- run_fetchIPData in Etr.
  destruct (run w (fetchIPData ip None) t) as [[data | e] t1] eqn:Ef; simpl in Etr; subst t1.
  - destruct (fetchIPData_Return _ _ _ _ _ _ Ef) as [En _].
    rewrite !(get_property data _ En). reflexivity.
  - reflexivity.
Qed.

Lemma bulk_callback_one_request ip : one_request 2 (bulk_callback ip).
Proof.
  unfold bulk_callback. destruct (isValidIP ip); simpl; [| split; eauto].
  intros [response | e]; simpl; [| split; eauto].
  destruct (ok response); simpl; [| split; eauto].
  destruct (body response) as [data | e]; simpl; [| split; eauto].
  destruct (nullish data) eqn:En.
  { destruct data; try discriminate; simpl; split; eauto. }
  rewrite (Get_property data "status" En); simpl.
  destruct (strict_equals_string (property data "status") "fail"); simpl.
  - rewrite (Get_property data "message" En); simpl.
    destruct (new_Error _); simpl; split; eauto.
  - rewrite !(get_property data _ En). simpl. split; eauto.
Qed.

Lemma entry_trace_0 ips t : entry_trace ips t 0 = t.
Proof. unfold entry_trace. simpl. rewrite app_nil_r. now destruct t. Qed.

Lemma entry_trace_S ip ips t i :
  entry_trace (ip :: ips) t (S i)
  = entry_trace ips (if isValidIP ip then log_request (request_url ip None) t else t) i.
Proof.
  unfold entry_trace. simpl. destruct (isValidIP ip); simpl; [| reflexivity].
  now rewrite <- app_assoc.
Qed.

Lemma run_bulk_callback ip t :
  exists v, run w (bulk_callback ip) t
            = (Return v, if isValidIP ip then log_request (request_url ip None) t else t).
Proof.
  destruct (isValidIP ip) eqn:E.
  - rewrite (run_bulk_callback_valid ip t E). eauto.
  - rewrite (run_bulk_callback_invalid ip t E). eauto.
Qed.

(** The callbacks run one after the other: each entry gets an outcome, and
    the requests made are those of the valid entries, in input order. *)
Lemma run_all_bulk ips t :
  exists results,
    run_all w (bulk_callback <$> ips) t = (Return <$> results, entry_trace ips t (length ips))
    /\ length results = length ips
    /\ forall i ip, ips !! i = Some ip ->
         exists v, results !! i = Some v
                   /\ fst (run w (bulk_callback ip) (entry_trace ips t i)) = Return v.
Proof.
  revert t. induction ips as [| ip0 ips IH]; intros t.
  - exists []. simpl. rewrite entry_trace_0. repeat split. intros i ip [=].
  - destruct (run_bulk_callback ip0 t) as [v0 E0].
    destruct (IH (if isValidIP ip0 then log_request (request_url ip0 None) t else t))
      as (results & Eall & Elen & Hi).
    exists (v0 :: results). rewrite !fmap_cons. cbn [run_all length].
    rewrite E0, Eall. rewrite entry_trace_S.
    split; [reflexivity |]. split; [now rewrite Elen |].
    intros [| i] ip Ei; simpl in Ei.
    + injection Ei as <-. exists v0. rewrite entry_trace_0, E0. auto.
    + destruct (Hi i ip Ei) as (v & Ev & Er). exists v. rewrite entry_trace_S. auto.
Qed.

Lemma run_bulk_return results t :
  run w (bulk_return (Return results)) t
  = (Return (bulk_output results (clock w (ticks t))), tick t).
Proof. reflexivity. Qed.

(** With every entry's promises delivered, in any order, the handler has
    returned the outcomes of the sequential run, in input order. *)
Lemma bulk_handler_settles ips t :
  exists results,
    length results = length ips
    /\ (forall i ip, ips !! i = Some ip ->
          exists v, results !! i = Some v
                    /\ fst (run w (bulk_callback ip) (entry_trace ips t i)) = Return v)
    /\ forall schedule,
         complete w ips t schedule ->
         bulk_handler w ips t schedule
         = mkLoop ((fun v => Finished (Return v)) <$> results)
             (tick (entry_trace ips t (length ips)))
             (Some (Return (bulk_output results (clock w (ticks t))))).
Proof.
  destruct (run_all_bulk ips t) as (results & Eall & Elen & Hi).
  exists results. split; [assumption |]. split; [assumption |].
  intros schedule Hfair.
  unfold bulk_handler. change (map bulk_callback ips) with (bulk_callback <$> ips).
  rewrite (event_loop_settles w bulk_return results (entry_trace ips t (length ips)) 2
             (bulk_callback <$> ips) t schedule).
  - rewrite run_bulk_return. reflexivity.
  - apply Forall_fmap, Forall_forall. intros ip _. apply bulk_callback_one_request.
  - now rewrite Eall.
  - now rewrite Eall.
  - exact Hfair.
Qed.

(** The requests made are those of the valid entries, in input order,
    whatever has been delivered. *)
Lemma bulk_handler_requests ips t schedule :
  requests (trace (bulk_handler w ips t schedule))
  = (requests t ++ map (fun ip => request_url ip None) (List.filter isValidIP ips))%list.
Proof.
  destruct (run_all_bulk ips t) as (results & Eall & Elen & Hi).
  unfold bulk_handler. change (map bulk_callback ips) with (bulk_callback <$> ips).
  rewrite (event_loop_requests w bulk_return results (entry_trace ips t (length ips)) 2
             (bulk_callback <$> ips) t schedule).
  - unfold entry_trace. simpl. now rewrite firstn_all.
  - apply Forall_fmap, Forall_forall. intros ip _. apply bulk_callback_one_request.
  - now rewrite Eall.
  - now rewrite Eall.
  - intros t'. now rewrite run_bulk_return.
Qed.

Lemma bulk_entry_outcome ip t v :
  fst (run w (bulk_callback ip) t) = Return v ->
  v = if isValidIP ip then
        match fst (run w (fetchIPData ip None) t) with
        | Return data => success_outcome data
        | Throw e => error_outcome ip (message e)
        end
      else error_outcome ip "Invalid IP format".
Proof.
  destruct (isValidIP ip) eqn:E.
  - rewrite (run_bulk_callback_valid ip t E). simpl. congruence.
  - rewrite (run_bulk_callback_invalid ip t E). simpl. congruence.
Qed.

Lemma bulk_spawn_awaits ips t i task :
  fst (spawn w (map bulk_callback ips) t) !! i = Some task ->
  exists ip, ips !! i = Some ip /\ task_awaits w task <= if isValidIP ip then 2 else 0.
Proof.
  revert t i. induction ips as [| ip0 ips IH]; intros t i; simpl; [intros [=] |].
  destruct (start w (bulk_callback ip0) t) as [task0 t0] eqn:E0.
  destruct (spawn w (map bulk_callback ips) t0) as [ts t'] eqn:Es. simpl.
  destruct i as [| i]; simpl.
  - intros [= <-]. exists ip0. split; [reflexivity |].
    destruct (isValidIP ip0) eqn:Ev.
    + destruct (start_one_request w 2 _ t (bulk_callback_one_request ip0))
        as (task & Est & _ & Hn).
      rewrite E0 in Est. injection Est as <- _. exact Hn.
    + unfold bulk_callback in E0. rewrite Ev in E0. simpl in E0.
      injection E0 as <- _. simpl. lia.
  - intros Ei. apply (IH t0 i). now rewrite Es.
Qed.

(** Two deliveries for each valid entry are enough. *)
Lemma complete_twice ips t schedule :
  (forall i ip, ips !! i = Some ip -> isValidIP ip = true ->
                2 <= count_occ Nat.eq_dec schedule i) ->
  complete w ips t schedule.
Proof.
  intros H i task Ei.
  destruct (bulk_spawn_awaits ips t i task Ei) as (ip & Eip & Hle).
  destruct (isValidIP ip) eqn:Ev; [| lia].
  specialize (H i ip Eip Ev). lia.
Qed.

End Bulk.

Lemma append_inv_tail (s1 s2 u : string) : s1 ++ u = s2 ++ u -> s1 = s2.
Proof.
  revert s2. induction s1 as [| c s1 IH]; intros [| c' s2] E; simpl in E.
  - reflexivity.
  - apply (f_equal String.length) in E. simpl in E. rewrite length_append in E. lia.
  - apply (f_equal String.length) in E. simpl in E. rewrite length_append in E. lia.
  - injection E as -> E. f_equal. auto.
Qed.

Lemma request_url_inj ip ip' fields :
  request_url ip fields = request_url ip' fields -> ip = ip'.
Proof.
  unfold request_url. intros E. simpl in E. injection E as E.
  eapply append_inv_tail, E.
Qed.

Lemma filter_take_mono {X} (f : X -> bool) (l : list X) i j :
  i <= j -> length (List.filter f (take i l)) <= length (List.filter f (take j l)).
Proof.
  revert i j. induction l as [| x l IH]; intros [| i] [| j] Hij; simpl; try lia.
  specialize (IH i j ltac:(lia)). destruct (f x); simpl; lia.
Qed.

Lemma filter_take_lt {X} (f : X -> bool) (l : list X) i j x :
  i < j -> l !! i = Some x -> f x = true ->
  length (List.filter f (take i l)) < length (List.filter f (take j l)).
Proof.
  intros Hij Ei Ef.
  pose proof (filter_take_mono f l (S i) j ltac:(lia)) as Hm.
  rewrite (take_S_r l i x Ei), List.filter_app, length_app in Hm. simpl in Hm.
  rewrite Ef in Hm. simpl in Hm. lia.
Qed.

(** The number of the request entry [i] makes. *)
Lemma entry_request_number ips t i :
  length (requests (entry_trace ips t i))
  = length (requests t) + length (List.filter isValidIP (take i ips)).
Proof. unfold entry_trace. simpl. now rewrite length_app, length_map. Qed.

(** Two valid entries make requests with different numbers. *)
Lemma entry_request_numbers_differ ips t i j ip ip' :
  ips !! i = Some ip -> ips !! j = Some ip' ->
  isValidIP ip = true -> isValidIP ip' = true -> i <> j ->
  length (requests (entry_trace ips t i)) <> length (requests (entry_trace ips t j)).
Proof.
  intros Ei Ej Ev Ev' Hne. rewrite !entry_request_number.
  destruct (Nat.lt_total i j) as [Hlt | [-> | Hlt]]; [| congruence |].
  - pose proof (filter_take_lt isValidIP ips i j ip Hlt Ei Ev). lia.
  - pose proof (filter_take_lt isValidIP ips j i ip' Hlt Ej Ev'). lia.
Qed.

(** The outcome of an entry depends on the world through the answer to
    its own request only. *)
Lemma run_bulk_callback_ext {host : Host} (w w' : World) ip t :
  upstream w' (length (requests t)) (request_url ip None)
    = upstream w (length (requests t)) (request_url ip None) ->
  fst (run w' (bulk_callback ip) t) = fst (run w (bulk_callback ip) t).
Proof.
  intros E. destruct (isValidIP ip) eqn:Ev.
  - rewrite !(run_bulk_callback_valid _ ip t Ev). cbn [fst].
    rewrite !run_fetchIPData, E.
    now rewrite (received_world w' w _ (log_request (request_url ip None) t)
                   (log_request (request_url ip None) t)).
  - now rewrite !(run_bulk_callback_invalid _ ip t Ev).
Qed.

(* ===================================================================== *)
(** ** The claims about the bulk handler *)
(* ===================================================================== *)

(** C2.  For a bulk input of 1 to 10 addresses there is one list of
    outcomes, as long as the input, whose entry [i] is what the callback
    returns for the address at position [i]; and under every order in which
    the promises settle, once they all have, the handler returns that
    list (with its length as [count]). *)
Theorem bulk_results_in_input_order {host : Host} (w : World) ips t :
  bulk_schema ips = true ->
  exists results,
    length results = length ips
    /\ (forall i ip, ips !! i = Some ip ->
          exists v, results !! i = Some v
                    /\ fst (run w (bulk_callback ip) (entry_trace ips t i)) = Return v)
    /\ forall schedule,
         complete w ips t schedule ->
         completion (bulk_handler w ips t schedule)
         = Some (Return (bulk_output results (clock w (ticks t)))).
Proof.
  intros _.
  destruct (bulk_handler_settles w ips t) as (results & Elen & Hi & Hs).
  exists results. split; [exact Elen |]. split; [exact Hi |].
  intros schedule Hc. now rewrite (Hs schedule Hc).
Qed.

Lemma three_ips_complete : complete (host := node) world_mixed three_ips idle last_first.
Proof.
  intros i task.
  let ts := eval vm_compute in
      (fst (spawn world_mixed (map (bulk_callback (host := node)) three_ips) idle)) in
  change (fst (spawn world_mixed (map (bulk_callback (host := node)) three_ips) idle))
    with ts.
  destruct i as [| [| [| i]]]; simpl; intros [= <-]; vm_compute; lia.
Qed.

Lemma bulk_results_in_input_order_witness :
  bulk_schema three_ips = true
  /\ complete (host := node) world_mixed three_ips idle last_first
  /\ exists results,
       completion (bulk_handler (host := node) world_mixed three_ips idle last_first)
       = Some (Return (bulk_output (host := node) results 0))
       /\ results !! 1 = Some (error_outcome "not-an-ip" "Invalid IP format")
       /\ results !! 2 = Some (error_outcome "1.1.1.1" "API error: 500").
Proof.
  split; [reflexivity |]. split; [exact three_ips_complete |].
  destruct (bulk_results_in_input_order (host := node) world_mixed three_ips idle eq_refl)
    as (results & _ & Hi & Hs).
  exists results. split; [exact (Hs last_first three_ips_complete) |].
  destruct (Hi 1 "not-an-ip" eq_refl) as (v1 & -> & E1).
  destruct (Hi 2 "1.1.1.1" eq_refl) as (v2 & -> & E2).
  vm_compute in E1, E2. injection E1 as <-. injection E2 as <-. split; reflexivity.
Defined.

(** C3.  When the address at position [i] fails [isValidIP], the outcome
    at position [i] is [{ ip, error: "Invalid IP format" }] with that very
    string; and the requests the handler makes, under any schedule, are
    those of the valid entries, in input order: the URL of the invalid
    address is not among them. *)
Theorem invalid_entry_outcome_without_call {host : Host} (w : World) ips t i ip :
  ips !! i = Some ip ->
  isValidIP ip = false ->
  (forall schedule,
     requests (trace (bulk_handler w ips t schedule))
     = (requests t ++ map (fun ip' => request_url ip' None) (List.filter isValidIP ips))%list)
  /\ ~ In (request_url ip None)
         (map (fun ip' => request_url ip' None) (List.filter isValidIP ips))
  /\ exists results,
       results !! i = Some (JObj [("ip", JStr ip); ("error", JStr "Invalid IP format")])
       /\ forall schedule,
            complete w ips t schedule ->
            completion (bulk_handler w ips t schedule)
            = Some (Return (bulk_output results (clock w (ticks t)))).
Proof.
  intros Ei Ev. split; [| split].
  - intros schedule. apply bulk_handler_requests.
  - rewrite in_map_iff. intros (ip' & Eurl & Hin).
    apply request_url_inj in Eurl. subst ip'.
    apply List.filter_In in Hin as [_ Hv]. congruence.
  - destruct (bulk_handler_settles w ips t) as (results & _ & Hi & Hs).
    exists results. split.
    + destruct (Hi i ip Ei) as (v & -> & Er).
      apply bulk_entry_outcome in Er. rewrite Ev in Er. now subst v.
    + intros schedule Hc. now rewrite (Hs schedule Hc).
Qed.

Lemma invalid_entry_outcome_without_call_witness :
  three_ips !! 1 = Some "not-an-ip"
  /\ isValidIP "not-an-ip" = false
  /\ requests (trace (bulk_handler (host := node) world_mixed three_ips idle last_first))
     = [request_url "8.8.8.8" None; request_url "1.1.1.1" None].
Proof.
  split; [reflexivity |]. split; [reflexivity |].
  destruct (invalid_entry_outcome_without_call (host := node) world_mixed three_ips idle
              1 "not-an-ip" eq_refl eq_refl) as (Hreq & _ & _).
  rewrite (Hreq last_first). reflexivity.
Defined.

(** C4.  One entry's failure does not fail the batch.  Whatever the world
    answers, the handler returns (it does not throw) a list as long as the
    input; an entry whose lookup throws [e] has the outcome
    [{ ip, error: e.message }] with its own address; and in a world that
    answers that entry's request differently and every other request the
    same, each other entry has the same outcome. *)
Theorem failure_stays_in_its_slot {host : Host} (w : World) ips t :
  exists results,
    length results = length ips
    /\ (forall schedule,
          complete w ips t schedule ->
          completion (bulk_handler w ips t schedule)
          = Some (Return (bulk_output results (clock w (ticks t)))))
    /\ (forall i ip e,
          ips !! i = Some ip -> isValidIP ip = true ->
          entry_lookup w ips t i ip = Throw e ->
          results !! i = Some (JObj [("ip", JStr ip); ("error", JStr (message e))]))
    /\ forall (w' : World) i ip,
         ips !! i = Some ip -> isValidIP ip = true ->
         (forall n url, n <> length (requests (entry_trace ips t i)) ->
                        upstream w' n url = upstream w n url) ->
         exists results',
           length results' = length ips
           /\ (forall schedule,
                 complete w' ips t schedule ->
                 completion (bulk_handler w' ips t schedule)
                 = Some (Return (bulk_output results' (clock w' (ticks t)))))
           /\ forall j, j <> i -> results' !! j = results !! j.
Proof.
  destruct (bulk_handler_settles w ips t) as (results & Elen & Hi & Hs).
  exists results. split; [exact Elen |]. split; [| split].
  - intros schedule Hc. now rewrite (Hs schedule Hc).
  - intros i ip e Ei Ev Ee.
    destruct (Hi i ip Ei) as (v & -> & Er).
    apply bulk_entry_outcome in Er. rewrite Ev in Er.
    unfold entry_lookup in Ee. rewrite Ee in Er. now subst v.
  - intros w' i ip Ei Ev Hw'.
    destruct (bulk_handler_settles w' ips t) as (results' & Elen' & Hi' & Hs').
    exists results'. split; [exact Elen' |]. split.
    + intros schedule Hc. now rewrite (Hs' schedule Hc).
    + intros j Hj.
      destruct (ips !! j) as [ip' |] eqn:Ej.
      * destruct (Hi j ip' Ej) as (v & -> & Er).
        destruct (Hi' j ip' Ej) as (v' & -> & Er').
        f_equal.
        destruct (isValidIP ip') eqn:Ev'.
        -- assert (Hn : length (requests (entry_trace ips t j))
                         <> length (requests (entry_trace ips t i))).
           { apply not_eq_sym.
             now apply (entry_request_numbers_differ ips t i j ip ip'). }
           pose proof (run_bulk_callback_ext w w' ip' (entry_trace ips t j)
                         (Hw' _ _ Hn)) as Hext.
           congruence.
        -- rewrite (run_bulk_callback_invalid w _ _ Ev') in Er.
           rewrite (run_bulk_callback_invalid w' _ _ Ev') in Er'.
           simpl in Er, Er'. congruence.
      * apply lookup_ge_None_1 in Ej.
        rewrite (lookup_ge_None_2 results j), (lookup_ge_None_2 results' j); auto; lia.
Qed.

Lemma world_mixed_down_complete :
  complete (host := node) world_mixed_down three_ips idle last_first.
Proof.
  intros i task.
  let ts := eval vm_compute in
      (fst (spawn world_mixed_down (map (bulk_callback (host := node)) three_ips) idle)) in
  change (fst (spawn world_mixed_down (map (bulk_callback (host := node)) three_ips) idle))
    with ts.
  destruct i as [| [| [| i]]]; simpl; intros [= <-]; vm_compute; lia.
Qed.

Lemma failure_stays_in_its_slot_witness :
  entry_lookup (host := node) world_mixed three_ips idle 2 "1.1.1.1"
    = Throw (Error "API error: 500")
  /\ exists results results',
       completion (bulk_handler (host := node) world_mixed three_ips idle last_first)
       = Some (Return (bulk_output (host := node) results 0))
       /\ completion (bulk_handler (host := node) world_mixed_down three_ips idle last_first)
          = Some (Return (bulk_output (host := node) results' 0))
       /\ results !! 2 = Some (error_outcome "1.1.1.1" "API error: 500")
       /\ results' !! 2 = results !! 2
       /\ results' !! 1 = results !! 1.
Proof.
  split; [reflexivity |].
  destruct (failure_stays_in_its_slot (host := node) world_mixed three_ips idle)
    as (results & _ & Hs & Hthrow & Hother).
  destruct (Hother world_mixed_down 0 "8.8.8.8" eq_refl eq_refl) as (results' & _ & Hs' & Hsame).
  { intros [| n] url Hn; [destruct Hn |]; reflexivity. }
  exists results, results'.
  split; [exact (Hs last_first three_ips_complete) |].
  split; [exact (Hs' last_first world_mixed_down_complete) |].
  split; [exact (Hthrow 2 "1.1.1.1" (Error "API error: 500") eq_refl eq_refl eq_refl) |].
  split; apply Hsame; discriminate.
Defined.

(** C7.  An entry whose lookup returns [data] has the outcome made of
    [ip] (the record's [query]), [country], [countryCode], [city], [isp]
    and [coordinates] with [lat] and [lon], each read from [data]. *)
Theorem success_outcome_from_record {host : Host} (w : World) ips t :
  exists results,
    (forall schedule,
       complete w ips t schedule ->
       completion (bulk_handler w ips t schedule)
       = Some (Return (bulk_output results (clock w (ticks t)))))
    /\ forall i ip data,
         ips !! i = Some ip -> isValidIP ip = true ->
         entry_lookup w ips t i ip = Return data ->
         results !! i
         = Some (JObj
                   [ ("ip", property data "query");
                     ("country", property data "country");
                     ("countryCode", property data "countryCode");
                     ("city", property data "city");
                     ("isp", property data "isp");
                     ("coordinates",
                      JObj [("lat", property data "lat"); ("lon", property data "lon")]) ]).
Proof.
  destruct (bulk_handler_settles w ips t) as (results & _ & Hi & Hs).
  exists results. split.
  - intros schedule Hc. now rewrite (Hs schedule Hc).
  - intros i ip data Ei Ev Ed.
    destruct (Hi i ip Ei) as (v & -> & Er).
    apply bulk_entry_outcome in Er. rewrite Ev in Er.
    unfold entry_lookup in Ed. rewrite Ed in Er. now subst v.
Qed.

Lemma success_outcome_from_record_witness :
  entry_lookup (host := node) world_mixed three_ips idle 0 "8.8.8.8" = Return google_dns
  /\ exists results,
       completion (bulk_handler (host := node) world_mixed three_ips idle last_first)
       = Some (Return (bulk_output (host := node) results 0))
       /\ results !! 0
          = Some (JObj
                    [ ("ip", JStr "8.8.8.8"); ("country", JStr "United States");
                      ("countryCode", JStr "US"); ("city", JStr "Ashburn");
                      ("isp", JStr "Google LLC");
                      ("coordinates",
                       JObj [ ("lat", JNum (Number_of_nat 39));
                              ("lon", JNum (Number_of_nat 77)) ]) ]).
Proof.
  split; [reflexivity |].
  destruct (success_outcome_from_record (host := node) world_mixed three_ips idle)
    as (results & Hs & Hok).
  exists results. split; [exact (Hs last_first three_ips_complete) |].
  exact (Hok 0 "8.8.8.8" google_dns eq_refl eq_refl eq_refl).
Defined.

(** C10.  Every outcome is of one of three kinds: the address is invalid
    and the outcome is [{ ip, error: "Invalid IP format" }]; the lookup
    threw [e] and the outcome is [{ ip, error: e.message }]; or the lookup
    returned [data] and the outcome is the success payload, which has no
    [error] and whose [ip] is the record's [query].  In the two error
    kinds [ip] is the input string as supplied. *)
Theorem error_outcomes_keep_the_input {host : Host} (w : World) ips t :
  exists results,
    (forall schedule,
       complete w ips t schedule ->
       completion (bulk_handler w ips t schedule)
       = Some (Return (bulk_output results (clock w (ticks t)))))
    /\ forall i ip,
         ips !! i = Some ip ->
         exists v,
           results !! i = Some v
           /\ ((isValidIP ip = false
                /\ v = JObj [("ip", JStr ip); ("error", JStr "Invalid IP format")])
               \/ (exists e,
                     isValidIP ip = true /\ entry_lookup w ips t i ip = Throw e
                     /\ v = JObj [("ip", JStr ip); ("error", JStr (message e))])
               \/ (exists data,
                     isValidIP ip = true /\ entry_lookup w ips t i ip = Return data
                     /\ v = success_outcome data
                     /\ field v "error" = None
                     /\ field v "ip" = Some (property data "query"))).
Proof.
  destruct (bulk_handler_settles w ips t) as (results & _ & Hi & Hs).
  exists results. split.
  - intros schedule Hc. now rewrite (Hs schedule Hc).
  - intros i ip Ei.
    destruct (Hi i ip Ei) as (v & Ev & Er). exists v. split; [exact Ev |].
    apply bulk_entry_outcome in Er. unfold entry_lookup.
    destruct (isValidIP ip); [| left; auto].
    right. destruct (fst (run w (fetchIPData ip None) (entry_trace ips t i))) as [data | e].
    + right. exists data. subst v. repeat split.
    + left. exists e. auto.
Qed.

Lemma error_outcomes_keep_the_input_witness :
  exists results,
    completion (bulk_handler (host := node) world_mixed three_ips idle last_first)
    = Some (Return (bulk_output (host := node) results 0))
    /\ results !! 2 = Some (JObj [("ip", JStr "1.1.1.1"); ("error", JStr "API error: 500")]).
Proof.
  destruct (error_outcomes_keep_the_input (host := node) world_mixed three_ips idle)
    as (results & Hs & Hkinds).
  exists results. split; [exact (Hs last_first three_ips_complete) |].
  destruct (Hkinds 2 "1.1.1.1" eq_refl)
    as (v & -> & [[Hinv _] | [(e & _ & Ee & ->) | (data & _ & Ed & _)]]).
  - vm_compute in Hinv. discriminate.
  - vm_compute in Ee. injection Ee as <-. reflexivity.
  - vm_compute in Ed. discriminate.
Defined.

(* ===================================================================== *)
(** ** Further properties of the validator *)
(* ===================================================================== *)

(** X1.  [isValidIP] accepts exactly the dotted quads (four groups of one
    to three decimal digits, each of value at most 255, leading zeros
    allowed) and the strings of the four colon-hex shapes: eight groups;
    [::] followed by one to seven groups; one to seven groups followed by
    [::]; and up to six groups, each with its colon, then [::], then one
    to six groups. *)
Theorem isValidIP_exactly (s : string) :
  isValidIP s = true <-> dotted_quad s \/ colon_hex s.
Proof.
  unfold isValidIP. rewrite orb_true_iff.
  split; (intros [H | H]; [left; apply ipv4Regex_dotted_quad | right; apply ipv6Regex_colon_hex]);
    exact H.
Qed.

Lemma all_in_class_app (ranges : list (ascii * ascii)) (a b : string) :
  all_in_class ranges (a ++ b) = all_in_class ranges a && all_in_class ranges b.
Proof.
  induction a as [| ch a IH]; simpl; [reflexivity |]. now rewrite IH, andb_assoc.
Qed.

Lemma all_in_class_wider (r r' : list (ascii * ascii)) (s : string) :
  (forall ch, in_class r ch = true -> in_class r' ch = true) ->
  all_in_class r s = true -> all_in_class r' s = true.
Proof.
  intros H. induction s as [| ch s IH]; simpl; [reflexivity |].
  rewrite !andb_true_iff. intros [Hc Hs]. auto.
Qed.

Lemma in_class_app_l (r r' : list (ascii * ascii)) ch :
  in_class r ch = true -> in_class (r ++ r') ch = true.
Proof. unfold in_class. rewrite existsb_app. now intros ->. Qed.

Lemma hex_with_colon (g : string) :
  all_in_class [("0", "9"); ("a", "f"); ("A", "F")]%char g = true ->
  all_in_class [("0", "9"); ("a", "f"); ("A", "F"); (":", ":")]%char g = true.
Proof.
  exact (all_in_class_wider _ _ g
           (in_class_app_l [("0", "9"); ("a", "f"); ("A", "F")]%char [(":", ":")]%char)).
Qed.

Lemma digits_with_dot (o : string) :
  all_in_class [("0", "9")]%char o = true ->
  all_in_class [("0", "9"); (".", ".")]%char o = true.
Proof.
  exact (all_in_class_wider _ _ o (in_class_app_l [("0", "9")]%char [(".", ".")]%char)).
Qed.

Lemma decimal_octet_digits (o : string) :
  decimal_octet o ->
  1 <= String.length o <= 3 /\ all_in_class [("0", "9")]%char o = true.
Proof.
  assert (Hd : forall ch, is_digit ch -> in_class [("0", "9")]%char ch = true).
  { intros ch H. now apply in_class_range. }
  intros H. apply decimal_octet_shapes in H
    as [(a & -> & Ha) | [(a & b & -> & Ha & Hb) | (a & b & c & -> & Ha & Hb & Hc & _)]];
    cbn [String.length all_in_class]; rewrite ?(Hd _ Ha), ?(Hd _ Hb), ?(Hd _ Hc);
    (split; [lia | reflexivity]).
Qed.

Lemma groups_colon_chars (gs : list string) :
  Forall hex_group gs ->
  2 * length gs <= String.length (groups_colon gs) <= 5 * length gs
  /\ all_in_class [("0", "9"); ("a", "f"); ("A", "F"); (":", ":")]%char (groups_colon gs)
     = true.
Proof.
  induction gs as [| g gs IH]; intros H; [split; simpl; [lia | reflexivity] |].
  apply Forall_cons in H as [[Hlen Hg] Hgs]. destruct (IH Hgs) as [Hl Ha].
  cbn [groups_colon length].
  rewrite !length_append, !all_in_class_app, Ha.
  rewrite (hex_with_colon g Hg).
  change (String.length ":") with 1. split; [lia | reflexivity].
Qed.

Lemma hex_group_chars (g : string) :
  hex_group g ->
  1 <= String.length g <= 4
  /\ all_in_class [("0", "9"); ("a", "f"); ("A", "F"); (":", ":")]%char g = true.
Proof.
  intros [Hlen Hg]. split; [exact Hlen | now apply hex_with_colon].
Qed.

(** X2.  A string [isValidIP] accepts is either 7 to 15 characters long
    and made of decimal digits and dots, or 3 to 61 characters long and
    made of hexadecimal digits and colons.  So no accepted string mixes
    dots with colons, and none holds a slash, a question mark, a blank or
    any other character that would change the URL it is put in. *)
Theorem isValidIP_alphabet (s : string) :
  isValidIP s = true ->
  (7 <= String.length s <= 15
   /\ all_in_class [("0", "9"); (".", ".")]%char s = true)
  \/ (3 <= String.length s <= 61
      /\ all_in_class [("0", "9"); ("a", "f"); ("A", "F"); (":", ":")]%char s = true).
Proof.
  intros H. apply isValidIP_accepts in H as [H | H].
  - left. destruct H as (a & b & c & d & -> & Ha & Hb & Hc & Hd).
    apply decimal_octet_digits in Ha as [La Ha], Hb as [Lb Hb], Hc as [Lc Hc], Hd as [Ld Hd].
    rewrite !length_append, !all_in_class_app, (digits_with_dot a Ha),
      (digits_with_dot b Hb), (digits_with_dot c Hc), (digits_with_dot d Hd).
    cbn [String.length]. split; [lia | reflexivity].
  - right.
    destruct H as [(gs & g & Hk & Hall & ->) | [(gs & g & Hk & Hall & ->)
                  | [(gs & Hk & Hgs & ->) | (gs & gs' & g & Hk & Hk' & Hall & ->)]]].
    + apply Forall_cons in Hall as [Hg Hgs].
      apply hex_group_chars in Hg as [Lg Hg]. apply groups_colon_chars in Hgs as [Lgs Hgs].
      rewrite !length_append, !all_in_class_app, Hg, Hgs. split; [lia | reflexivity].
    + apply Forall_cons in Hall as [Hg Hgs].
      apply hex_group_chars in Hg as [Lg Hg]. apply groups_colon_chars in Hgs as [Lgs Hgs].
      rewrite !length_append, !all_in_class_app, Hg, Hgs.
      cbn [String.length]. split; [lia | reflexivity].
    + apply groups_colon_chars in Hgs as [Lgs Hgs].
      rewrite !length_append, !all_in_class_app, Hgs.
      cbn [String.length]. split; [lia | reflexivity].
    + apply Forall_cons in Hall as [Hg Hall]. apply Forall_app in Hall as [Hgs Hgs'].
      apply hex_group_chars in Hg as [Lg Hg]. apply groups_colon_chars in Hgs as [Lgs Hgs].
      apply groups_colon_chars in Hgs' as [Lgs' Hgs'].
      rewrite !length_append, !all_in_class_app, Hg, Hgs, Hgs'.
      cbn [String.length]. split; [lia | reflexivity].
Qed.

Lemma isValidIP_alphabet_witness :
  isValidIP "2001:db8::" = true
  /\ 3 <= String.length "2001:db8::" <= 61
  /\ all_in_class [("0", "9"); ("a", "f"); ("A", "F"); (":", ":")]%char "2001:db8::" = true.
Proof.
  split; [reflexivity |].
  destruct (isValidIP_alphabet "2001:db8::" eq_refl) as [[_ H] | H].
  - vm_compute in H. discriminate.
  - exact H.
Defined.

(* ===================================================================== *)
(** ** Further properties of the single-IP handlers *)
(* ===================================================================== *)

Lemma fetchIPData_trace {host : Host} (w : World) ip fields t :
  snd (run w (fetchIPData ip fields) t) = log_request (request_url ip fields) t.
Proof. rewrite run_fetchIPData. apply run_received. Qed.

Lemma fetchIPData_cases {host : Host} (w : World) ip fields t :
  (exists data,
     run w (fetchIPData ip fields) t = (Return data, log_request (request_url ip fields) t)
     /\ nullish data = false)
  \/ exists e,
       run w (fetchIPData ip fields) t = (Throw e, log_request (request_url ip fields) t).
Proof.
  pose proof (fetchIPData_trace w ip fields t) as Et.
  destruct (run w (fetchIPData ip fields) t) as [[data | e] t1] eqn:E; simpl in Et; subst t1.
  - left. exists data. split; [reflexivity |].
    now destruct (fetchIPData_Return _ _ _ _ _ _ E).
  - right. eauto.
Qed.

(** X3.  For a valid address each single-IP handler makes exactly one
    request, whatever comes back: lookup and geolocate ask for the default
    field list, timezone and isp-info for their own shorter lists. *)
Theorem single_ip_handlers_request_once {host : Host} (w : World) ip t :
  isValidIP ip = true ->
  requests (snd (run w (lookup_handler ip) t))
    = (requests t
       ++ [("http://ip-api.com/json/" ++ ip
           ++ "?fields=status,message,country,countryCode,region,regionName,city,zip,lat,lon,timezone,isp,org,as,query")%string])%list
  /\ requests (snd (run w (geolocate_handler ip) t))
     = (requests t
        ++ [("http://ip-api.com/json/" ++ ip
            ++ "?fields=status,message,country,countryCode,region,regionName,city,zip,lat,lon,timezone,isp,org,as,query")%string])%list
  /\ requests (snd (run w (timezone_handler ip) t))
     = (requests t
        ++ [("http://ip-api.com/json/" ++ ip
            ++ "?fields=status,message,query,timezone,countryCode,city")%string])%list
  /\ requests (snd (run w (isp_info_handler ip) t))
     = (requests t
        ++ [("http://ip-api.com/json/" ++ ip
            ++ "?fields=status,message,query,isp,org,as,asname,mobile,proxy,hosting")%string])%list.
Proof.
  intros Ev.
  unfold lookup_handler, geolocate_handler, timezone_handler, isp_info_handler.
  rewrite Ev; simpl negb; cbv iota. rewrite !run_bind.
  repeat split.
  - destruct (fetchIPData_cases w ip None t) as [(data & -> & En) | (e & ->)];
      [| reflexivity].
    rewrite !(get_property data _ En). reflexivity.
  - destruct (fetchIPData_cases w ip None t) as [(data & -> & En) | (e & ->)];
      [| reflexivity].
    unfold mapsUrl. rewrite !(get_property data _ En). simpl.
    destruct (ToString (property data "lat")); simpl; [| reflexivity].
    destruct (ToString (property data "lon")); reflexivity.
  - destruct (fetchIPData_cases w ip
                (Some "status,message,query,timezone,countryCode,city") t)
      as [(data & -> & En) | (e & ->)]; [| reflexivity].
    rewrite !(get_property data _ En). simpl.
    destruct (toLocaleString _ _ _); reflexivity.
  - destruct (fetchIPData_cases w ip
                (Some "status,message,query,isp,org,as,asname,mobile,proxy,hosting") t)
      as [(data & -> & En) | (e & ->)]; [| reflexivity].
    unfold flag. rewrite !(get_property data _ En). reflexivity.
Qed.

Lemma single_ip_handlers_request_once_witness :
  isValidIP "1.1.1.1" = true
  /\ requests (snd (run world_html (timezone_handler (host := node) "1.1.1.1") idle))
     = ["http://ip-api.com/json/1.1.1.1?fields=status,message,query,timezone,countryCode,city"].
Proof.
  split; [reflexivity |].
  destruct (single_ip_handlers_request_once (host := node) world_html "1.1.1.1" idle eq_refl)
    as (_ & _ & H & _).
  exact H.
Defined.

(** X4.  When its lookup throws, a single-IP handler throws the same
    error, with the one request made and the clock not read; so does the
    overview, whose lookup of 8.8.8.8 is not guarded. *)
Theorem lookup_failure_propagates {host : Host} (w : World) ip t e t1 :
  isValidIP ip = true ->
  (run w (fetchIPData ip None) t = (Throw e, t1) ->
   run w (lookup_handler ip) t = (Throw e, t1)
   /\ run w (geolocate_handler ip) t = (Throw e, t1))
  /\ (run w (fetchIPData ip (Some "status,message,query,timezone,countryCode,city")) t
        = (Throw e, t1) ->
      run w (timezone_handler ip) t = (Throw e, t1))
  /\ (run w (fetchIPData ip
               (Some "status,message,query,isp,org,as,asname,mobile,proxy,hosting")) t
        = (Throw e, t1) ->
      run w (isp_info_handler ip) t = (Throw e, t1))
  /\ (run w (fetchIPData "8.8.8.8" None) t = (Throw e, t1) ->
      run w overview_handler t = (Throw e, t1)).
Proof.
  intros Ev.
  unfold lookup_handler, geolocate_handler, timezone_handler, isp_info_handler,
    overview_handler.
  rewrite Ev; simpl negb; cbv iota. rewrite !run_bind.
  split; [intros ->; split; reflexivity |].
  split; [intros ->; reflexivity |].
  split; intros ->; reflexivity.
Qed.

Lemma lookup_failure_propagates_witness :
  isValidIP "1.1.1.1" = true
  /\ run world_html (lookup_handler (host := node) "1.1.1.1") idle
     = (Throw not_json, log_request (request_url "1.1.1.1" None) idle).
Proof.
  split; [reflexivity |].
  destruct (lookup_failure_propagates (host := node) world_html "1.1.1.1" idle not_json
              (log_request (request_url "1.1.1.1" None) idle) eq_refl) as (H & _).
  exact (proj1 (H eq_refl)).
Defined.

(** X5.  When its lookup returns [data], the lookup handler returns the
    record reshaped: [region] is the record's [regionName], [organization]
    its [org], [asn] its [as]; a field the record lacks is [undefined];
    [fetchedAt] is the one clock reading, taken after the lookup. *)
Theorem lookup_output {host : Host} (w : World) ip t data t1 :
  isValidIP ip = true ->
  run w (fetchIPData ip None) t = (Return data, t1) ->
  run w (lookup_handler ip) t
  = (Return
       (JObj
          [ ("output",
             JObj
               [ ("ip", property data "query");
                 ("country", property data "country");
                 ("countryCode", property data "countryCode");
                 ("region", property data "regionName");
                 ("city", property data "city");
                 ("zip", property data "zip");
                 ("coordinates",
                  JObj [("lat", property data "lat"); ("lon", property data "lon")]);
                 ("timezone", property data "timezone");
                 ("isp", property data "isp");
                 ("organization", property data "org");
                 ("asn", property data "as");
                 ("fetchedAt", JStr (toISOString (clock w (ticks t1)))) ]) ]),
     tick t1).
Proof.
  intros Ev Ef. destruct (fetchIPData_Return _ _ _ _ _ _ Ef) as [En _].
  unfold lookup_handler. rewrite Ev; simpl negb; cbv iota.
  rewrite run_bind, Ef. rewrite !(get_property data _ En). reflexivity.
Qed.

Lemma lookup_output_witness :
  exists out,
    run world_up (lookup_handler (host := node) "8.8.8.8") idle
    = (Return out, tick (log_request (request_url "8.8.8.8" None) idle))
    /\ property (property out "output") "region" = JUndefined
    /\ property (property out "output") "isp" = JStr "Google LLC".
Proof.
  eexists. split.
  - exact (lookup_output (host := node) world_up "8.8.8.8" idle google_dns _ eq_refl eq_refl).
  - split; reflexivity.
Defined.

(** X6.  When its lookup returns [data], the geolocate handler returns
    the location ([postalCode] is the record's [zip]) and a maps link made
    of [ToString] of [lat] and of [lon]; for a record without coordinates
    the link ends in ["undefined,undefined"]; and when [ToString] of a
    coordinate throws, the handler throws that error after the request,
    without reading the clock. *)
Theorem geolocate_output {host : Host} (w : World) ip t data t1 :
  isValidIP ip = true ->
  run w (fetchIPData ip None) t = (Return data, t1) ->
  (forall lat lon,
     ToString (property data "lat") = Return lat ->
     ToString (property data "lon") = Return lon ->
     run w (geolocate_handler ip) t
     = (Return
          (JObj
             [ ("output",
                JObj
                  [ ("ip", property data "query");
                    ("location",
                     JObj
                       [ ("country", property data "country");
                         ("countryCode", property data "countryCode");
                         ("region", property data "region");
                         ("regionName", property data "regionName");
                         ("city", property data "city");
                         ("postalCode", property data "zip") ]);
                    ("coordinates",
                     JObj
                       [ ("latitude", property data "lat");
                         ("longitude", property data "lon");
                         ("mapsUrl",
                          JStr ("https://www.google.com/maps?q=" ++ lat ++ "," ++ lon)) ]);
                    ("timezone", property data "timezone");
                    ("fetchedAt", JStr (toISOString (clock w (ticks t1)))) ]) ]),
        tick t1))
  /\ (field data "lat" = None -> field data "lon" = None ->
      exists out,
        run w (geolocate_handler ip) t = (Return out, tick t1)
        /\ property (property (property out "output") "coordinates") "mapsUrl"
           = JStr "https://www.google.com/maps?q=undefined,undefined")
  /\ (forall e,
        ToString (property data "lat") = Throw e
        \/ ((exists lat, ToString (property data "lat") = Return lat)
            /\ ToString (property data "lon") = Throw e) ->
        run w (geolocate_handler ip) t = (Throw e, t1)).
Proof.
  intros Ev Ef. destruct (fetchIPData_Return _ _ _ _ _ _ Ef) as [En _].
  assert (Hrun : forall lat lon,
            ToString (property data "lat") = Return lat ->
            ToString (property data "lon") = Return lon ->
            run w (geolocate_handler ip) t
            = (Return
                 (JObj
                    [ ("output",
                       JObj
                         [ ("ip", property data "query");
                           ("location",
                            JObj
                              [ ("country", property data "country");
                                ("countryCode", property data "countryCode");
                                ("region", property data "region");
                                ("regionName", property data "regionName");
                                ("city", property data "city");
                                ("postalCode", property data "zip") ]);
                           ("coordinates",
                            JObj
                              [ ("latitude", property data "lat");
                                ("longitude", property data "lon");
                                ("mapsUrl",
                                 JStr ("https://www.google.com/maps?q=" ++ lat ++ "," ++ lon)) ]);
                           ("timezone", property data "timezone");
                           ("fetchedAt", JStr (toISOString (clock w (ticks t1)))) ]) ]),
               tick t1)).
  { intros lat lon Elat Elon.
    unfold geolocate_handler, mapsUrl. rewrite Ev; simpl negb; cbv iota.
    rewrite run_bind, Ef. rewrite !(get_property data _ En). simpl.
    rewrite Elat; simpl. rewrite Elon; simpl. reflexivity. }
  split; [exact Hrun |]. split.
  - intros Hlat Hlon. eexists. split.
    + apply Hrun; unfold property; rewrite ?Hlat, ?Hlon; reflexivity.
    + reflexivity.
  - intros e He.
    unfold geolocate_handler, mapsUrl. rewrite Ev; simpl negb; cbv iota.
    rewrite run_bind, Ef. rewrite !(get_property data _ En). simpl.
    destruct He as [Elat | [[lat Elat] Elon]]; rewrite Elat; simpl; [reflexivity |].
    rewrite Elon. reflexivity.
Qed.

Lemma geolocate_output_witness :
  isValidIP "8.8.8.8" = true
  /\ exists out t',
       run world_up (geolocate_handler (host := node) "8.8.8.8") idle = (Return out, t')
       /\ property (property (property out "output") "coordinates") "mapsUrl"
          = JStr "https://www.google.com/maps?q=0,0"
       /\ property (property (property out "output") "location") "postalCode" = JUndefined.
Proof.
  split; [reflexivity |].
  destruct (geolocate_output (host := node) world_up "8.8.8.8" idle google_dns _
              eq_refl eq_refl) as (Hrun & _ & _).
  eexists; eexists. split; [exact (Hrun "0" "0" eq_refl eq_refl) |].
  split; reflexivity.
Defined.

(** X7.  When its lookup returns [data], the timezone handler reads the
    clock twice: the local time is the first reading formatted for
    ["en-US"] in the record's time zone, [fetchedAt] is the second reading;
    [country] is the record's [countryCode].  When the formatter rejects
    the time zone, the handler throws its error, after the request and the
    first reading, and returns nothing. *)
Theorem timezone_output {host : Host} (w : World) ip t data t1 :
  isValidIP ip = true ->
  run w (fetchIPData ip (Some "status,message,query,timezone,countryCode,city")) t
    = (Return data, t1) ->
  (forall localTime,
     toLocaleString (clock w (ticks t1)) "en-US" (property data "timezone")
       = Return localTime ->
     run w (timezone_handler ip) t
     = (Return
          (JObj
             [ ("output",
                JObj
                  [ ("ip", property data "query");
                    ("timezone", property data "timezone");
                    ("country", property data "countryCode");
                    ("city", property data "city");
                    ("currentLocalTime", JStr localTime);
                    ("fetchedAt", JStr (toISOString (clock w (S (ticks t1))))) ]) ]),
        tick (tick t1)))
  /\ (forall e,
        toLocaleString (clock w (ticks t1)) "en-US" (property data "timezone") = Throw e ->
        run w (timezone_handler ip) t = (Throw e, tick t1)).
Proof.
  intros Ev Ef. destruct (fetchIPData_Return _ _ _ _ _ _ Ef) as [En _].
  split; intros x Ex; unfold timezone_handler; rewrite Ev; simpl negb; cbv iota;
    rewrite run_bind, Ef; rewrite !(get_property data _ En); simpl; rewrite Ex;
    reflexivity.
Qed.

Lemma timezone_output_witness :
  isValidIP "8.8.8.8" = true
  /\ exists out,
       run world_up (timezone_handler (host := node) "8.8.8.8") idle
       = (Return out,
          tick (tick (log_request
                        (request_url "8.8.8.8"
                           (Some "status,message,query,timezone,countryCode,city")) idle)))
       /\ property (property out "output") "fetchedAt" = JStr "2024-01-01T00:00:00.000Z"
       /\ property (property out "output") "country" = JStr "US".
Proof.
  split; [reflexivity |].
  destruct (timezone_output (host := node) world_up "8.8.8.8" idle google_dns _
              eq_refl eq_refl) as (Hrun & _).
  eexists. split; [exact (Hrun "1/1/2024, 12:00:00 AM" eq_refl) |].
  split; reflexivity.
Defined.

(** X8.  A flag of the isp-info output is the record's value under that
    name whenever that value is truthy, of whatever type, and [false]
    whenever it is falsy or absent: a provider that sends ["yes"] or [1]
    gets it passed through, one that sends [0], [""] or [null] gets
    [false]. *)
Theorem isp_info_flag_passthrough {host : Host} (w : World) ip t data t1 :
  isValidIP ip = true ->
  run w (fetchIPData ip (Some "status,message,query,isp,org,as,asname,mobile,proxy,hosting")) t
    = (Return data, t1) ->
  exists out,
    run w (isp_info_handler ip) t = (Return out, tick t1)
    /\ forall k, In k ["mobile"; "proxy"; "hosting"] ->
         (ToBoolean (property data k) = true ->
          property (property (property out "output") "flags") k = property data k)
         /\ (ToBoolean (property data k) = false ->
             property (property (property out "output") "flags") k = JBool false).
Proof.
  intros Ev Ef. destruct (fetchIPData_Return _ _ _ _ _ _ Ef) as [En _].
  eexists. split.
  - unfold isp_info_handler. rewrite Ev; simpl negb; cbv iota.
    rewrite run_bind, Ef. unfold flag. rewrite !(get_property data _ En). reflexivity.
  - intros k [<- | [<- | [<- | []]]]; unfold or_else;
      (split; intros E; cbn [property field own_property String.eqb Ascii.eqb Bool.eqb];
       rewrite E; reflexivity).
Qed.

Lemma isp_info_flag_passthrough_witness :
  isValidIP "8.8.8.8" = true
  /\ exists out t',
       run (answers (Return (mkResponse 200
                               (Return (JObj [("query", JStr "8.8.8.8");
                                              ("mobile", JStr "yes");
                                              ("proxy", JStr "")])))))
         (isp_info_handler (host := node) "8.8.8.8") idle = (Return out, t')
       /\ property (property (property out "output") "flags") "mobile" = JStr "yes"
       /\ property (property (property out "output") "flags") "proxy" = JBool false.
Proof.
  split; [reflexivity |].
  destruct (isp_info_flag_passthrough (host := node)
              (answers (Return (mkResponse 200
                                  (Return (JObj [("query", JStr "8.8.8.8");
                                                 ("mobile", JStr "yes");
                                                 ("proxy", JStr "")])))))
              "8.8.8.8" idle _ _ eq_refl eq_refl) as (out & Hrun & Hflags).
  exists out. eexists. split; [exact Hrun |].
  split.
  - exact (proj1 (Hflags "mobile" ltac:(simpl; auto)) eq_refl).
  - exact (proj2 (Hflags "proxy" ltac:(simpl; auto)) eq_refl).
Defined.

(** X15.  The payload's shape is not checked.  When the body decodes to
    a value that is not [null] and has none of the fields (a JSON array, a
    number, a string, [true], or [{}]), the lookup handler does not throw:
    it returns an output whose every field but [fetchedAt] is
    [undefined]. *)
Theorem lookup_without_shape_check {host : Host} (w : World) ip t response data :
  isValidIP ip = true ->
  upstream w (length (requests t)) (request_url ip None) = Return response ->
  ok response = true ->
  body response = Return data ->
  nullish data = false ->
  (forall k, field data k = None) ->
  run w (lookup_handler ip) t
  = (Return
       (JObj
          [ ("output",
             JObj
               [ ("ip", JUndefined);
                 ("country", JUndefined);
                 ("countryCode", JUndefined);
                 ("region", JUndefined);
                 ("city", JUndefined);
                 ("zip", JUndefined);
                 ("coordinates", JObj [("lat", JUndefined); ("lon", JUndefined)]);
                 ("timezone", JUndefined);
                 ("isp", JUndefined);
                 ("organization", JUndefined);
                 ("asn", JUndefined);
                 ("fetchedAt", JStr (toISOString (clock w (ticks t)))) ]) ]),
     tick (log_request (request_url ip None) t)).
Proof.
  intros Ev Eu Eok Eb En Hnone.
  assert (Hp : forall k, property data k = JUndefined).
  { intros k. unfold property. now rewrite Hnone. }
  unfold lookup_handler. rewrite Ev; simpl negb; cbv iota.
  rewrite run_bind, run_fetchIPData, Eu. unfold received. simpl.
  rewrite Eok; simpl. rewrite Eb; simpl.
  rewrite !(Get_property data _ En), !Hp. simpl.
  rewrite !(get_property data _ En), !Hp. reflexivity.
Qed.

Lemma lookup_without_shape_check_witness :
  isValidIP "8.8.8.8" = true
  /\ exists out t',
       run (answers (Return (mkResponse 200 (Return (JArr [JStr "8.8.8.8"])))))
         (lookup_handler (host := node) "8.8.8.8") idle = (Return out, t')
       /\ property (property out "output") "ip" = JUndefined.
Proof.
  split; [reflexivity |].
  eexists; eexists. split.
  - apply (lookup_without_shape_check (host := node)
             (answers (Return (mkResponse 200 (Return (JArr [JStr "8.8.8.8"])))))
             "8.8.8.8" idle (mkResponse 200 (Return (JArr [JStr "8.8.8.8"])))
             (JArr [JStr "8.8.8.8"])); reflexivity.
  - reflexivity.
Defined.

(* ===================================================================== *)
(** ** Further properties of the bulk handler *)
(* ===================================================================== *)

(** The handler has completed exactly when every call has been delivered
    as often as it awaits; until then the trace is the one the calls
    left. *)
Lemma event_loop_completion {A B} (w : World) (after : Result (list A) -> Async B)
    (vs : list A) (t1 : Trace) n (ms : list (Async A)) t schedule :
  Forall (one_request n) ms ->
  fst (run_all w ms t) = Return <$> vs ->
  snd (run_all w ms t) = t1 ->
  ((forall i task, fst (spawn w ms t) !! i = Some task ->
                   task_awaits w task <= count_occ Nat.eq_dec schedule i)
   /\ completion (event_loop w after (enter w ms after t) schedule)
      = Some (fst (run w (after (Return vs)) t1)))
  \/ (~ (forall i task, fst (spawn w ms t) !! i = Some task ->
                        task_awaits w task <= count_occ Nat.eq_dec schedule i)
      /\ completion (event_loop w after (enter w ms after t) schedule) = None
      /\ trace (event_loop w after (enter w ms after t) schedule) = t1).
Proof.
  intros Hms Evs Et.
  destruct (enter_steady w after vs t1 n ms t Hms Evs Et) as [Hl _].
  destruct (event_loop_steady w after vs t1 schedule _ Hl) as [[Hh Hc] Haw].
  destruct Hc as [(Ec & Etr & En) | (Ec & Etr & Ev)].
  - right. split; [| auto]. intros Hfair.
    rewrite (event_loop_settles w after vs t1 n ms t schedule Hms Evs Et Hfair) in Ec.
    discriminate.
  - left. split; [| exact Ec]. intros i task Ei.
    rewrite <- tasks_enter with (after := after) in Ei.
    destruct (Haw i task Ei) as (task' & Ei' & Ha).
    destruct (all_values_fulfilled _ vs i task' Ev Ei') as [a ->]. simpl in Ha. lia.
Qed.

(** X9.  The bulk handler returns exactly when every lookup has
    completed: under a schedule that is complete it has returned the full
    list and has read the clock exactly once; under any other schedule it has
    neither returned nor thrown, and has not read the clock.  It never
    returns a partial list. *)
Theorem bulk_returns_when_all_completed {host : Host} (w : World) ips t :
  exists results,
    length results = length ips
    /\ forall schedule,
         (complete w ips t schedule
          /\ completion (bulk_handler w ips t schedule)
             = Some (Return (bulk_output results (clock w (ticks t))))
          /\ ticks (trace (bulk_handler w ips t schedule)) = S (ticks t))
         \/ (~ complete w ips t schedule
             /\ completion (bulk_handler w ips t schedule) = None
             /\ ticks (trace (bulk_handler w ips t schedule)) = ticks t).
Proof.
  destruct (run_all_bulk w ips t) as (results & Eall & Elen & _).
  exists results. split; [exact Elen |]. intros schedule.
  assert (Hticks : complete w ips t schedule ->
                   ticks (trace (bulk_handler w ips t schedule)) = S (ticks t)).
  { intros Hc. destruct (bulk_handler_settles w ips t) as (results' & _ & _ & Hs).
    rewrite (Hs schedule Hc). reflexivity. }
  revert Hticks.
  unfold bulk_handler, complete. intros Hticks.
  change (map bulk_callback ips) with (bulk_callback <$> ips).
  destruct (event_loop_completion w bulk_return results (entry_trace ips t (length ips)) 2
              (bulk_callback <$> ips) t schedule) as [[Hc Ec] | (Hc & Ec & Et)].
  - apply Forall_fmap, Forall_forall. intros ip _. apply bulk_callback_one_request.
  - now rewrite Eall.
  - now rewrite Eall.
  - left. split; [exact Hc |]. split; [| exact (Hticks Hc)].
    rewrite Ec, run_bulk_return. reflexivity.
  - right. split; [exact Hc |]. split; [exact Ec |]. now rewrite Et.
Qed.

Lemma bulk_returns_when_all_completed_witness :
  completion (bulk_handler (host := node) world_mixed three_ips idle [2; 0]) = None
  /\ completion (bulk_handler (host := node) world_mixed three_ips idle last_first) <> None
  /\ ticks (trace (bulk_handler (host := node) world_mixed three_ips idle last_first)) = 1.
Proof.
  destruct (bulk_returns_when_all_completed (host := node) world_mixed three_ips idle)
    as (results & _ & Hs).
  split; [| split].
  - destruct (Hs [2; 0]) as [[Hc _] | (_ & Hn & _)]; [| exact Hn].
    exfalso.
    assert (H := Hc 0 (InFlight 0 (request_url "8.8.8.8" None)
                         (fun answer =>
                            match start world_mixed (bulk_callback (host := node) "8.8.8.8") idle
                            with
                            | (InFlight _ _ k, _) => k answer
                            | _ => ret JNull
                            end)) eq_refl).
    vm_compute in H. lia.
  - destruct (Hs last_first) as [(_ & Ec & _) | (Hc & _)].
    + rewrite Ec. discriminate.
    + destruct (Hc three_ips_complete).
  - destruct (Hs last_first) as [(_ & _ & Et) | (Hc & _)].
    + exact Et.
    + destruct (Hc three_ips_complete).
Defined.

(** X10.  Once the schedule is complete, whatever is delivered later
    changes nothing: neither the tasks, nor the trace, nor what the handler
    returned. *)
Theorem late_deliveries_are_ignored {host : Host} (w : World) ips t schedule later :
  complete w ips t schedule ->
  bulk_handler w ips t (schedule ++ later) = bulk_handler w ips t schedule.
Proof.
  intros Hc.
  destruct (bulk_handler_settles w ips t) as (results & _ & _ & Hs).
  rewrite (Hs schedule Hc). apply Hs.
  intros i task Ei. specialize (Hc i task Ei). rewrite count_occ_app. lia.
Qed.

Lemma late_deliveries_are_ignored_witness :
  complete (host := node) world_mixed three_ips idle last_first
  /\ bulk_handler (host := node) world_mixed three_ips idle (last_first ++ [1; 0; 7])
     = bulk_handler (host := node) world_mixed three_ips idle last_first.
Proof.
  split; [exact three_ips_complete |].
  exact (late_deliveries_are_ignored (host := node) world_mixed three_ips idle last_first
           [1; 0; 7] three_ips_complete).
Defined.

(** X11.  The concurrent handler returns what a sequential loop would:
    the outcomes are the values the callbacks return when they are run one
    after the other in input order, each to its end, and the requests made
    are the same, in the same order. *)
Theorem bulk_is_a_sequential_map {host : Host} (w : World) ips t :
  exists results,
    fst (run_all w (map bulk_callback ips) t) = map Return results
    /\ forall schedule,
         complete w ips t schedule ->
         completion (bulk_handler w ips t schedule)
         = Some (Return (bulk_output results (clock w (ticks t))))
         /\ requests (trace (bulk_handler w ips t schedule))
            = requests (snd (run_all w (map bulk_callback ips) t)).
Proof.
  destruct (run_all_bulk w ips t) as (results & Eall & Elen & _).
  change (map bulk_callback ips) with (bulk_callback <$> ips).
  exists results. rewrite Eall. split; [reflexivity |].
  intros schedule Hc. unfold bulk_handler.
  change (map bulk_callback ips) with (bulk_callback <$> ips).
  rewrite (event_loop_settles w bulk_return results (entry_trace ips t (length ips)) 2
             (bulk_callback <$> ips) t schedule).
  - rewrite run_bulk_return. split; reflexivity.
  - apply Forall_fmap, Forall_forall. intros ip _. apply bulk_callback_one_request.
  - now rewrite Eall.
  - now rewrite Eall.
  - exact Hc.
Qed.

Lemma bulk_is_a_sequential_map_witness :
  exists results,
    fst (run_all world_mixed (map (bulk_callback (host := node)) three_ips) idle)
    = map Return results
    /\ completion (bulk_handler (host := node) world_mixed three_ips idle last_first)
       = Some (Return (bulk_output (host := node) results 0)).
Proof.
  destruct (bulk_is_a_sequential_map (host := node) world_mixed three_ips idle)
    as (results & Eseq & Hs).
  exists results. split; [exact Eseq |].
  exact (proj1 (Hs last_first three_ips_complete)).
Defined.

Lemma filter_none {X} (f : X -> bool) (l : list X) :
  Forall (fun x => f x = false) l -> List.filter f l = [].
Proof.
  induction 1 as [| x l Hx _ IH]; simpl; [reflexivity |]. now rewrite Hx.
Qed.

(** X12.  When no address of the input is valid, the handler returns at
    once, with nothing delivered: every outcome is
    [{ ip, error: "Invalid IP format" }] and no request is made. *)
Theorem all_invalid_returns_at_once {host : Host} (w : World) ips t :
  Forall (fun ip => isValidIP ip = false) ips ->
  completion (bulk_handler w ips t [])
  = Some (Return
            (bulk_output
               ((fun ip => JObj [("ip", JStr ip); ("error", JStr "Invalid IP format")])
                  <$> ips)
               (clock w (ticks t))))
  /\ requests (trace (bulk_handler w ips t [])) = requests t.
Proof.
  intros Hinv. split.
  - destruct (bulk_handler_settles w ips t) as (results & Elen & Hi & Hs).
    rewrite (Hs []).
    + simpl. do 3 f_equal. apply list_eq. intros i. rewrite list_lookup_fmap.
      destruct (ips !! i) as [ip |] eqn:Ei; simpl.
      * destruct (Hi i ip Ei) as (v & -> & Er).
        apply bulk_entry_outcome in Er.
        rewrite Forall_lookup in Hinv. rewrite (Hinv i ip Ei) in Er. now subst v.
      * apply lookup_ge_None_2. apply lookup_ge_None_1 in Ei. lia.
    + apply complete_twice. intros i ip Ei Ev.
      rewrite Forall_lookup in Hinv. rewrite (Hinv i ip Ei) in Ev. discriminate.
  - rewrite bulk_handler_requests, (filter_none _ _ Hinv). simpl. apply app_nil_r.
Qed.

Lemma all_invalid_returns_at_once_witness :
  Forall (fun ip => isValidIP ip = false) ["not-an-ip"; "1::2"; ""]
  /\ requests (trace (bulk_handler (host := node) world_up ["not-an-ip"; "1::2"; ""] idle []))
     = [].
Proof.
  assert (H : Forall (fun ip => isValidIP ip = false) ["not-an-ip"; "1::2"; ""]).
  { repeat constructor. }
  split; [exact H |].
  exact (proj2 (all_invalid_returns_at_once (host := node) world_up _ idle H)).
Defined.

(** X13.  A bulk call makes one request for each valid entry, also when
    an address occurs twice, and none for the others: for an input the
    schema admits, at most ten requests, under any schedule. *)
Theorem bulk_request_count {host : Host} (w : World) ips t schedule :
  bulk_schema ips = true ->
  length (requests (trace (bulk_handler w ips t schedule)))
  = length (requests t) + length (List.filter isValidIP ips)
  /\ length (requests (trace (bulk_handler w ips t schedule))) <= length (requests t) + 10.
Proof.
  intros Hs. unfold bulk_schema in Hs. apply andb_true_iff in Hs as [_ Hmax].
  apply Nat.leb_le in Hmax.
  rewrite bulk_handler_requests, length_app, length_map.
  pose proof (List.filter_length_le isValidIP ips). split; [reflexivity | lia].
Qed.

Lemma bulk_request_count_witness :
  bulk_schema ["8.8.8.8"; "8.8.8.8"; "nope"] = true
  /\ length (requests (trace (bulk_handler (host := node) world_up
                                ["8.8.8.8"; "8.8.8.8"; "nope"] idle [0])))
     = 2.
Proof.
  split; [reflexivity |].
  exact (proj1 (bulk_request_count (host := node) world_up ["8.8.8.8"; "8.8.8.8"; "nope"]
                  idle [0] eq_refl)).
Defined.

(** X14.  A bulk call for one address agrees with the lookup handler on
    the same trace.  For a valid address: when lookup throws [e], the
    outcome is [{ ip, error: e.message }]; when lookup returns, the outcome
    has the same [ip], [country], [countryCode], [city], [isp] and
    [coordinates] as lookup's output.  For an invalid one the two differ in
    wording: lookup throws ["Invalid IP address format"], the outcome says
    ["Invalid IP format"]. *)
Theorem bulk_of_one_agrees_with_lookup {host : Host} (w : World) ip t schedule :
  complete w [ip] t schedule ->
  exists v,
    completion (bulk_handler w [ip] t schedule)
    = Some (Return (bulk_output [v] (clock w (ticks t))))
    /\ (isValidIP ip = true ->
        (forall e t1, run w (lookup_handler ip) t = (Throw e, t1) ->
                      v = JObj [("ip", JStr ip); ("error", JStr (message e))])
        /\ (forall out t1, run w (lookup_handler ip) t = (Return out, t1) ->
            forall k, In k ["ip"; "country"; "countryCode"; "city"; "isp"; "coordinates"] ->
                      property v k = property (property out "output") k))
    /\ (isValidIP ip = false ->
        v = JObj [("ip", JStr ip); ("error", JStr "Invalid IP format")]
        /\ run w (lookup_handler ip) t = (Throw (Error "Invalid IP address format"), t)).
Proof.
  intros Hc.
  destruct (bulk_handler_settles w [ip] t) as (results & Elen & Hi & Hs).
  destruct (Hi 0 ip eq_refl) as (v & Ev & Er).
  destruct results as [| v0 [| v1 results]]; try discriminate.
  injection Ev as ->. exists v. rewrite (Hs schedule Hc). split; [reflexivity |].
  rewrite entry_trace_0 in Er. apply bulk_entry_outcome in Er.
  split.
  - intros Evalid. rewrite Evalid in Er.
    unfold lookup_handler. rewrite Evalid; simpl negb; cbv iota. rewrite run_bind.
    destruct (fetchIPData_cases w ip None t) as [(data & Ef & En) | (e' & Ef)];
      rewrite Ef in *; cbn [fst] in Er; subst v.
    + split; [intros e t1; rewrite !(get_property data _ En); discriminate |].
      intros out t1. rewrite !(get_property data _ En).
      intros [= <- _] k [<- | [<- | [<- | [<- | [<- | [<- | []]]]]]]; reflexivity.
    + split; [intros e t1 [= <- _]; reflexivity | intros out t1; discriminate].
  - intros Einv. rewrite Einv in Er. split; [exact Er |].
    unfold lookup_handler. now rewrite Einv.
Qed.

Lemma one_ip_complete : complete (host := node) world_up ["8.8.8.8"] idle [0; 0].
Proof.
  apply complete_twice. intros [| i] ip; simpl; intros [= <-] _; simpl; lia.
Qed.

Lemma bulk_of_one_agrees_with_lookup_witness :
  complete (host := node) world_up ["8.8.8.8"] idle [0; 0]
  /\ exists v out t1,
       completion (bulk_handler (host := node) world_up ["8.8.8.8"] idle [0; 0])
       = Some (Return (bulk_output (host := node) [v] 0))
       /\ run world_up (lookup_handler (host := node) "8.8.8.8") idle = (Return out, t1)
       /\ property v "isp" = property (property out "output") "isp".
Proof.
  split; [exact one_ip_complete |].
  destruct (bulk_of_one_agrees_with_lookup (host := node) world_up "8.8.8.8" idle [0; 0]
              one_ip_complete) as (v & Ec & Hvalid & _).
  exists v. eexists; eexists. split; [exact Ec |]. split; [reflexivity |].
  apply (proj2 (Hvalid eq_refl) _ _ eq_refl). do 4 right. left. reflexivity.
Defined.
